(** * DeepCodeSearchBT: the inverted-index builder of [index_creator.py]

    A shallow embedding of [IndexCreator] (text normalisation, raw count
    accumulation, TF-IDF weighting and ordering, the loader, the
    persistence boundary and the preprocessing of raw code lines) together
    with the properties its specification states about it and further
    properties read off the code.

    Modelling conventions.
    - A Python [str] is a Rocq [string]; one [ascii] stands for one character
      (the code points below 256), so [len] is [String.length].
    - A Python [dict] or [Counter] is an association list in insertion order
      with pairwise distinct keys: the stored order of postings is observable.
    - [math.log10] and the true division [/] are taken as the exact real
      functions; rounding of binary floating point is not modelled.
    - [nltk.stem.PorterStemmer().stem] is not part of the repository: it is
      the section variable [stem].
    - Exceptions are values of [exn]; effectful methods run in a small
      state-and-exception monad over the world the code can observe
      (files, the database of the data loader, standard output). *)

From Stdlib Require Import String Ascii List Arith Bool Lia ZArith.
From Stdlib Require Import Reals Lra Permutation Sorted.
Import ListNotations.
Open Scope string_scope.

(** ** Python string primitives used by the source *)

Module PyStr.

(** [str.isspace] on one character (code points below 256). *)
Definition is_space (c : ascii) : bool :=
  let n := nat_of_ascii c in
  (((9 <=? n) && (n <=? 13)) || ((28 <=? n) && (n <=? 32))
   || (n =? 133) || (n =? 160))%nat.

Fixpoint lstrip (s : string) : string :=
  match s with
  | EmptyString => EmptyString
  | String c s' => if is_space c then lstrip s' else s
  end.

Fixpoint rstrip (s : string) : string :=
  match s with
  | EmptyString => EmptyString
  | String c s' =>
      match rstrip s' with
      | EmptyString => if is_space c then EmptyString else String c EmptyString
      | r => String c r
      end
  end.

(** [s.strip()] *)
Definition strip (s : string) : string := rstrip (lstrip s).

(** Scan for [s.replace(old, new)] with a non-empty [old]: [skip] counts the
    characters of the current match that are still to be dropped. *)
Fixpoint replace_aux (old new : string) (skip : nat) (s : string) : string :=
  match s with
  | EmptyString => EmptyString
  | String c s' =>
      match skip with
      | S k => replace_aux old new k s'
      | O =>
          if prefix old s
          then new ++ replace_aux old new (String.length old - 1) s'
          else String c (replace_aux old new 0 s')
      end
  end.

(** With an empty [old] Python puts [new] before every character and at the
    end. *)
Fixpoint intersperse (new s : string) : string :=
  match s with
  | EmptyString => new
  | String c s' => new ++ String c (intersperse new s')
  end.

(** [s.replace(old, new)]: all non-overlapping occurrences, left to right. *)
Definition replace (s old new : string) : string :=
  match old with
  | EmptyString => intersperse new s
  | _ => replace_aux old new 0 s
  end.

(** [s.split(sep)] for a one-character separator. *)
Fixpoint split (sep : ascii) (s : string) : list string :=
  match s with
  | EmptyString => [EmptyString]
  | String c s' =>
      if Ascii.eqb c sep then EmptyString :: split sep s'
      else match split sep s' with
           | p :: ps => String c p :: ps
           | [] => [String c EmptyString]
           end
  end.

(** [needle in s] on strings. *)
Fixpoint contains (needle s : string) : bool :=
  prefix needle s ||
  match s with
  | EmptyString => false
  | String _ s' => contains needle s'
  end.

End PyStr.

(** ** The synonym table ([replace_synonyms], lines 57-75) *)

(** The chained [.replace(old, new)] calls, in source order. *)
Definition synonym_rules : list (string * string) :=
  [ (" read ", "load"); (" write", "store"); (" save", "store"); (" dump", "store");
    (" quit", "exit"); (" termin ", "exit"); (" leav", "exit"); (" break ", "exit");
    (" pop ", "delet"); ("remov", "delet"); (" trim ", "delet"); (" strip ", "delet");
    (" halt", "stop"); ("restart", "continu"); ("push ", "add"); ("object", "instanc");
    (" null ", "none"); ("method", "function"); ("concat ", "combin");
    (" for ", "loop"); (" foreach ", "loop"); (" while ", "loop"); (" iterat ", "loop");
    (" integ ", "int"); ("tinyint ", "int"); (" smallint ", "int"); (" bigint ", "int");
    (" shortint ", "int"); ("longint ", "int"); (" byte ", "int"); (" short ", "int");
    (" doubl ", "float"); (" long ", "float"); (" decim ", "float"); ("real ", "float");
    (" array ", "[]"); (" arr ", "[]"); (" fastest ", "fast"); (" speed ", "fast");
    (" defin ", "creat"); (" declar ", "creat"); (" init ", "creat"); (" construct ", "creat");
    (" new ", "creat"); (" make ", "creat"); (" initi ", "creat"); (" initid ", "creat");
    (" boolean ", "bool"); ("begin", "start"); ("run ", "execut"); ("runnabl", "execut");
    (" enumer ", "enum"); (" enumerd ", "enum"); (" websit ", "web");
    (" vertex ", "node"); (" arc ", "edg"); (" math ", "calc"); (" determin ", "calc");
    (" should ", "check"); (" test ", "check"); (" is ", "check"); (" ensur ", "check");
    (" equal ", "compar"); (" implement ", "extend"); (" whitespac ", "space") ].

(** One [.replace] of the chain. *)
Definition apply_rule (s : string) (r : string * string) : string :=
  PyStr.replace s (fst r) (snd r).

Definition replace_synonyms (word : string) : string :=
  let word := " " ++ word ++ " " in
  PyStr.strip (fold_left apply_rule synonym_rules word).


(** ** Dictionaries in insertion order *)

Section Dict.
Context {K V : Type} (eqb : K -> K -> bool).

(** [d.get(k)] / [k in d] *)
Fixpoint dict_get (d : list (K * V)) (k : K) : option V :=
  match d with
  | [] => None
  | (k', v) :: d' => if eqb k' k then Some v else dict_get d' k
  end.

(** [d[k] = v]: an existing key keeps its position, a new key goes last. *)
Fixpoint dict_set (d : list (K * V)) (k : K) (v : V) : list (K * V) :=
  match d with
  | [] => [(k, v)]
  | (k', v') :: d' =>
      if eqb k' k then (k', v) :: d' else (k', v') :: dict_set d' k v
  end.

(** [dict(pairs)]: a later pair overwrites the value of an earlier one. *)
Definition dict_of_items (items : list (K * V)) : list (K * V) :=
  fold_left (fun d kv => dict_set d (fst kv) (snd kv)) items [].
End Dict.

(** [Counter]: document id to raw count (accumulation) or weight (after the
    weighting pass). *)
Definition Counter := list (nat * nat).
Definition WCounter := list (nat * R).
Definition RawIndex := list (string * Counter).
Definition Index := list (string * WCounter).

Definition index_get {V} (index : list (string * V)) (word : string) : option V :=
  dict_get String.eqb index word.
Definition counter_get {V} (cnt : list (nat * V)) (i : nat) : option V :=
  dict_get Nat.eqb cnt i.

(** [cnt[i] += 1]: a missing key of a [Counter] reads as 0. *)
Definition counter_incr (cnt : Counter) (i : nat) : Counter :=
  dict_set Nat.eqb cnt i (match counter_get cnt i with Some n => n | None => 0 end + 1).

(** Lines 167-174 and 181-188: the update shared by both branches of
    [add_to_index]. *)
Definition bump (index : RawIndex) (word : string) (i : nat) : RawIndex :=
  match index_get index word with
  | Some cnt => dict_set String.eqb index word (counter_incr cnt i)
  | None => dict_set String.eqb index word (dict_set Nat.eqb [] i 1)
  end.

(** The raw count stored for [word] and document [i] (0 when there is no
    postings entry). *)
Definition count_of (index : RawIndex) (word : string) (i : nat) : nat :=
  match index_get index word with
  | Some cnt => match counter_get cnt i with Some n => n | None => 0 end
  | None => 0
  end.

(** Whether [index[word]] exists and has the key [i]. *)
Definition has_posting {V} (index : list (string * list (nat * V)))
    (word : string) (i : nat) : bool :=
  match index_get index word with
  | Some cnt => match counter_get cnt i with Some _ => true | None => false end
  | None => false
  end.

(** [enumerate(lines)] *)
Fixpoint enumerate_from {A} (n : nat) (l : list A) : list (nat * A) :=
  match l with
  | [] => []
  | x :: l' => (n, x) :: enumerate_from (S n) l'
  end.
Definition enumerate {A} (l : list A) : list (nat * A) := enumerate_from 0 l.

(** A Python [set] of strings; [stopwords.add(w)]. *)
Definition StrSet := list string.
Definition set_mem (w : string) (s : StrSet) : bool := existsb (String.eqb w) s.
Definition set_add (w : string) (s : StrSet) : StrSet :=
  if set_mem w s then s else (s ++ [w])%list.

(** ** Exceptions *)

Inductive exn : Type :=
| AssertionError (msg : string)
| ValueError (msg : string)
| TypeError (msg : string)
| ZeroDivisionError (msg : string)
| OSError (msg : string).

Inductive result (A : Type) : Type :=
| Ok (a : A)
| Raise (e : exn).
Arguments Ok {A} a.
Arguments Raise {A} e.

Definition rbind {A B} (r : result A) (k : A -> result B) : result B :=
  match r with
  | Ok a => k a
  | Raise e => Raise e
  end.

Fixpoint mapM {A B} (f : A -> result B) (l : list A) : result (list B) :=
  match l with
  | [] => Ok []
  | x :: l' => rbind (f x) (fun y => rbind (mapM f l') (fun ys => Ok (y :: ys)))
  end.

(** ** The weighting and ordering pass (lines 227-234) *)

Definition log10 (x : R) : R := (ln x / ln 10)%R.

(** [n / d] on two Python ints. *)
Definition true_div (n d : nat) : result R :=
  if Nat.eqb d 0 then Raise (ZeroDivisionError "division by zero")
  else Ok (INR n / INR d)%R.

(** [math.log10(x)] *)
Definition math_log10 (x : R) : result R :=
  if Rle_dec x 0 then Raise (ValueError "math domain error") else Ok (log10 x).

(** Lines 228-232 for one [line_counter]: [lines] are its keys, and every
    key, in stored order, has its count replaced by the weight (the keys of
    a [Counter] are distinct, so the loop visits every item once). *)
Definition weight_counter (number_of_code_fragments : nat) (line_counter : Counter)
  : result WCounter :=
  let lines := map fst line_counter in
  rbind (true_div number_of_code_fragments (length lines)) (fun q =>
  rbind (math_log10 q) (fun idf =>
  mapM (fun p : nat * nat =>
          rbind (math_log10 (INR (1 + snd p))) (fun l => Ok (fst p, (idf * l)%R)))
       line_counter)).

(** The loop of line 227 over [index.values()]. *)
Definition weight_pass (number_of_code_fragments : nat) (index : RawIndex)
  : result Index :=
  mapM (fun e : string * Counter =>
          rbind (weight_counter number_of_code_fragments (snd e))
                (fun c => Ok (fst e, c)))
       index.

(** The sort key of line 234, [(-x[1], x[0])], and Python's [<] on such
    tuples: the first components decide unless they are equal. *)
Definition sort_key (x : nat * R) : R * nat := ((- snd x)%R, fst x).
Definition tuple_ltb (a b : R * nat) : bool :=
  if Req_dec_T (fst a) (fst b) then Nat.ltb (snd a) (snd b)
  else if Rlt_dec (fst a) (fst b) then true else false.

(** [sorted(items, key)]: a stable sort that only asks [key y < key x]. *)
Section Sorted.
Context {A K : Type} (key : A -> K) (ltb : K -> K -> bool).

Fixpoint insert_sorted (x : A) (l : list A) : list A :=
  match l with
  | [] => [x]
  | y :: l' => if ltb (key x) (key y) then x :: l
               else y :: insert_sorted x l'
  end.

(** Elements are taken left to right; each goes after everything already
    placed that is not greater, which keeps equal keys in input order. *)
Definition sorted (l : list A) : list A :=
  fold_left (fun acc x => insert_sorted x acc) l [].
End Sorted.

(** Line 234 for one word: [Counter(dict(sorted(cnt.items(), key=...)))]. *)
Definition sort_counter (cnt : WCounter) : WCounter :=
  dict_of_items Nat.eqb (sorted sort_key tuple_ltb cnt).

(** Lines 233-234: every key keeps its position in [index]. *)
Definition sort_pass (index : Index) : Index :=
  map (fun e => (fst e, sort_counter (snd e))) index.

(** ** The world the builder observes *)

Inductive file : Type :=
| Hdf5 (rows : list (list Z))
| Pickle (index : Index).

(** [files] is the file system; [database] logs the calls of
    [data_loader.save_index]; [stdout] holds the printed lines; [stopwords]
    is the set object that the caller hands to [create_index], which the
    method mutates in place. *)
Record World : Type := mkWorld {
  files : list (string * file);
  database : list (string * Index * string);
  stdout : list string;
  stopwords : StrSet
}.

(** State and exceptions: the world survives a raise. *)
Definition M (A : Type) : Type := World -> result A * World.

Definition ret {A} (a : A) : M A := fun w => (Ok a, w).
Definition bind {A B} (m : M A) (k : A -> M B) : M B :=
  fun w => match m w with
           | (Ok a, w') => k a w'
           | (Raise e, w') => (Raise e, w')
           end.
Definition lift {A} (r : result A) : M A := fun w => (r, w).

Declare Scope py_scope.
Delimit Scope py_scope with py.
Notation "x <- c ;; k" := (bind c (fun x => k))
  (at level 61, c at next level, right associativity) : py_scope.
Notation "c ;;; k" := (bind c (fun _ => k))
  (at level 61, right associativity) : py_scope.

Definition print (line : string) : M unit :=
  fun w => (Ok tt, mkWorld (files w) (database w) (stdout w ++ [line])%list (stopwords w)).

(** [assert cond, msg] *)
Definition py_assert (cond : bool) (msg : string) : M unit :=
  if cond then ret tt else lift (Raise (AssertionError msg)).

(** [os.path.exists(path)] *)
Definition path_exists (path : string) : M bool :=
  fun w => (Ok (match dict_get String.eqb (files w) path with
                | Some _ => true
                | None => false
                end), w).

(** Modelled from the spec: [data_loader.load_hdf5(path, 0, -1)] of
    [DeepCSKeras], the document loader, which returns one ordered sequence of
    integers per document id. *)
Definition load_hdf5 (path : string) : M (list (list Z)) :=
  fun w => match dict_get String.eqb (files w) path with
           | Some (Hdf5 rows) => (Ok rows, w)
           | _ => (Raise (OSError path), w)
           end.

(** Modelled from the spec: [data_loader.save_pickle(path, index)] and
    [data_loader.load_pickle(path)] of [DeepCSKeras], the persistence of the
    finished index. *)
Definition save_pickle (path : string) (index : Index) : M unit :=
  fun w => (Ok tt, mkWorld (dict_set String.eqb (files w) path (Pickle index))
                           (database w) (stdout w) (stopwords w)).
Definition load_pickle (path : string) : M Index :=
  fun w => match dict_get String.eqb (files w) path with
           | Some (Pickle index) => (Ok index, w)
           | _ => (Raise (OSError path), w)
           end.

(** Modelled from the spec: [data_loader.save_index(kind, index, path)] of
    [DeepCSKeras], the database side of the index store. *)
Definition db_save_index (kind : string) (index : Index) (path : string) : M unit :=
  fun w => (Ok tt, mkWorld (files w) (database w ++ [(kind, index, path)])%list
                           (stdout w) (stopwords w)).

(** [stopwords.add(word)] on the caller's set. *)
Definition stopwords_add (word : string) : M unit :=
  fun w => (Ok tt, mkWorld (files w) (database w) (stdout w) (set_add word (stopwords w))).
Definition get_stopwords : M StrSet := fun w => (Ok (stopwords w), w).

(** ** [IndexCreator] *)

(** The attributes of [self] that the methods read ([__init__], lines 45-55);
    the three [use_*] fields are the entries of [data_params]. *)
Record IndexCreator : Type := mkIndexCreator {
  data_path : string;
  dataset_path : string;
  use_methname : string;
  use_tokens : string;
  use_apiseq : string;
  index_type : string;
  methname_vocab : list (string * Z);
  token_vocab : list (string * Z);
  apiseq_vocab : list (string * Z)
}.

(** What [load_data] hands back: a 2-tuple, a 3-tuple, or [None] when no
    branch returns. *)
Inductive LoadRet : Type :=
| Ret2 (methname_indices token_indices : list (list Z))
| Ret3 (methnames tokens apiseqs : list (list string))
| RetNone.

Definition Docs : Type := list (list string).

(** [a, b, c = value] *)
Definition unpack3 (value : LoadRet) : result (Docs * Docs * Docs) :=
  match value with
  | Ret3 a b c => Ok (a, b, c)
  | Ret2 _ _ => Raise (ValueError "not enough values to unpack (expected 3, got 2)")
  | RetNone => Raise (TypeError "cannot unpack non-iterable NoneType object")
  end.

(** Lines 87-89: [dict((v, k) for k, v in vocab.items())]. *)
Definition invert_vocab (vocab : list (string * Z)) : list (Z * string) :=
  dict_of_items Z.eqb (map (fun kv => (snd kv, fst kv)) vocab).

(** Lines 90-92: [[inverted.get(i, 'UNK') for i in lst]]. *)
Definition translate (inverted : list (Z * string)) (lst : list Z) : list string :=
  map (fun i => match dict_get Z.eqb inverted i with
                | Some k => k
                | None => "UNK"
                end) lst.

Definition load_data (self : IndexCreator) : M LoadRet :=
  (e <- path_exists (dataset_path self ++ use_methname self) ;;
   py_assert e "Method names of real data not found." ;;;
   e <- path_exists (dataset_path self ++ use_tokens self) ;;
   py_assert e "Tokens of real data not found." ;;;
   e <- path_exists (dataset_path self ++ use_apiseq self) ;;
   py_assert e "API sequences of real data not found." ;;;
   methname_indices <- load_hdf5 (dataset_path self ++ use_methname self) ;;
   token_indices <- load_hdf5 (dataset_path self ++ use_tokens self) ;;
   apiseq_indices <- load_hdf5 (dataset_path self ++ use_apiseq self) ;;
   if index_type self =? "word_indices" then ret (Ret2 methname_indices token_indices)
   else if index_type self =? "inverted_index" then
     print "Translating methname, token and api sequence word indices back to natural language...   Please wait." ;;;
     let inverted_methname_vocab := invert_vocab (methname_vocab self) in
     let inverted_token_vocab := invert_vocab (token_vocab self) in
     let inverted_apiseq_vocab := invert_vocab (apiseq_vocab self) in
     let methnames := map (translate inverted_methname_vocab) methname_indices in
     let tokens := map (translate inverted_token_vocab) token_indices in
     let apiseqs := map (translate inverted_apiseq_vocab) apiseq_indices in
     ret (Ret3 methnames tokens apiseqs)
   else ret RetNone)%py.

Definition save_index (self : IndexCreator) (index : Index) : M unit :=
  (if index_type self =? "word_indices" then ret tt
   else
     let index_path := dataset_path self in
     let index_file := index_type self ++ ".pkl" in
     save_pickle (index_path ++ index_file) index ;;;
     print ("Index successfully saved to: " ++ index_path ++ index_file) ;;;
     db_save_index (index_type self) index index_path)%py.

(** What [load_index] returns: the pair of line 138 or the unpickled index. *)
Inductive Loaded : Type :=
| LoadedDocs (methnames tokens : Docs)
| LoadedIndex (index : Index).

Definition load_index (self : IndexCreator) : M Loaded :=
  (if index_type self =? "word_indices" then
     value <- load_data self ;;
     t <- lift (unpack3 value) ;;
     let '(methnames, tokens, irrelevant) := t in
     ret (LoadedDocs methnames tokens)
   else
     let index_path := dataset_path self in
     let index_file := index_type self ++ ".pkl" in
     e <- path_exists (index_path ++ index_file) ;;
     py_assert e ("Index file " ++ index_file ++ " not found at " ++ index_path) ;;;
     print ("Loading index from: " ++ index_path ++ index_file) ;;;
     index <- load_pickle (index_path ++ index_file) ;;
     ret (LoadedIndex index))%py.

Section Builder.
(** [PorterStemmer().stem] of NLTK. *)
Variable stem : string -> string.

(** Lines 163-174: one underscore-delimited piece of a raw word. *)
Definition add_piece (stopwords : StrSet) (i : nat) (index : RawIndex)
    (word : string) : RawIndex :=
  let length := String.length word in
  if (length <? 2)%nat || (18 <? length)%nat || set_mem word stopwords then index
  else
    let word := stem word in
    let word := replace_synonyms word in
    bump index word i.

(** Lines 159-174: the loops over [line] and [raw_word.split('_')]. *)
Definition add_line (stopwords : StrSet) (i : nat) (index : RawIndex)
    (line : list string) : RawIndex :=
  fold_left (fun index raw_word =>
               fold_left (add_piece stopwords i) (PyStr.split "_" raw_word) index)
            line index.

(** Lines 179-188: the branch taken when [stopwords] is false. *)
Definition add_api_line (i : nat) (index : RawIndex) (line : list string) : RawIndex :=
  fold_left (fun index word =>
               if negb (word =? "[]") then index else bump index word i)
            line index.

(** [if stopwords:] is true for a non-empty set only: [None] and the empty
    set both take the branch of lines 178-188. *)
Definition add_to_index (index : RawIndex) (lines : Docs)
    (stopwords : option StrSet) : RawIndex :=
  match stopwords with
  | Some ((_ :: _) as sw) =>
      fold_left (fun index il => add_line sw (fst il) index (snd il))
                (enumerate lines) index
  | _ =>
      fold_left (fun index il => add_api_line (fst il) index (snd il))
                (enumerate lines) index
  end.

Definition create_index (self : IndexCreator) : M unit :=
  (if index_type self =? "word_indices" then print "Nothing to be done."
   else
     value <- load_data self ;;
     t <- lift (unpack3 value) ;;
     let '(methnames, tokens, apiseqs) := t in
     let index : RawIndex := [] in
     index <-
       (if index_type self =? "inverted_index" then
          print "Adding lines to the index...   Please wait." ;;;
          sw <- get_stopwords ;;
          let index := add_to_index index methnames (Some sw) in
          stopwords_add "new" ;;;
          sw <- get_stopwords ;;
          let index := add_to_index index tokens (Some sw) in
          let index := add_to_index index apiseqs None in
          let number_of_code_fragments := List.length methnames in
          index <- lift (weight_pass number_of_code_fragments index) ;;
          ret (sort_pass index)
        else ret []) ;;
     save_index self index)%py.
End Builder.

(** ** Derived views used to state the properties *)

Section Views.
Variable stem : string -> string.

(** The terms that lines 162-166 let through for one raw piece. *)
Definition piece_terms (stopwords : StrSet) (word : string) : list string :=
  let length := String.length word in
  if (length <? 2)%nat || (18 <? length)%nat || set_mem word stopwords then []
  else [replace_synonyms (stem word)].

(** The terms one document contributes in one call of [add_to_index], in
    the order in which the loops meet them. *)
Definition field_terms (stopwords : option StrSet) (line : list string) : list string :=
  match stopwords with
  | Some ((_ :: _) as sw) =>
      flat_map (fun raw_word => flat_map (piece_terms sw) (PyStr.split "_" raw_word)) line
  | _ => filter (fun word => word =? "[]") line
  end.

(** Lines 202-205: the three calls, on an index that starts empty. *)
Definition accumulate (stopwords : StrSet) (methnames tokens apiseqs : Docs) : RawIndex :=
  let index := add_to_index stem [] methnames (Some stopwords) in
  let index := add_to_index stem index tokens (Some (set_add "new" stopwords)) in
  add_to_index stem index apiseqs None.

(** Lines 202-234: the finished index, as a function of the loaded fields
    and of the stopword set at entry. *)
Definition build (stopwords : StrSet) (methnames tokens apiseqs : Docs) : result Index :=
  rbind (weight_pass (List.length methnames) (accumulate stopwords methnames tokens apiseqs))
        (fun index => Ok (sort_pass index)).
End Views.

(** [idf] of line 229 as a real number. *)
Definition idf (N df : nat) : R := log10 (INR N / INR df).

(** The weight of line 232. *)
Definition tf_idf (N df tf : nat) : R := (idf N df * log10 (INR (1 + tf)))%R.

(** What lines 228-232 store for one counter. *)
Definition weighted (N : nat) (cnt : Counter) : WCounter :=
  map (fun p => (fst p, tf_idf N (length cnt) (snd p))) cnt.

(** The postings that the build stores for a raw counter. *)
Definition finished (N : nat) (cnt : Counter) : WCounter :=
  sort_counter (weighted N cnt).

Definition occurrences (word : string) (terms : list string) : nat :=
  count_occ string_dec terms word.

(** The update of [bump] for a run of terms of one document. *)
Definition bump_all (index : RawIndex) (terms : list string) (i : nat) : RawIndex :=
  fold_left (fun index word => bump index word i) terms index.

(** Every counter is non-empty, has distinct keys and counts of at least 1;
    the index has distinct keys. *)
Definition wf_counter (cnt : Counter) : Prop :=
  cnt <> [] /\ NoDup (map fst cnt) /\ Forall (fun p => 1 <= snd p) cnt.
Definition wf_index (index : RawIndex) : Prop :=
  NoDup (map fst index) /\ Forall (fun e => wf_counter (snd e)) index.

(** All document ids of the index are below [n]. *)
Definition ids_below (n : nat) (index : RawIndex) : Prop :=
  Forall (fun e => Forall (fun p => fst p < n) (snd e)) index.

(** Stored order of one term's postings: weight descending, ties by
    ascending document id. *)
Definition ranked (cnt : WCounter) : Prop :=
  forall k a b, nth_error cnt k = Some a -> nth_error cnt (S k) = Some b ->
    (snd b <= snd a)%R /\ (snd a = snd b -> fst a < fst b).

(** [x] may stand directly before [y] in the output of [sorted]: the key of
    [y] is not less than the key of [x]. *)
Definition in_order {A K} (key : A -> K) (ltb : K -> K -> bool) (x y : A) : Prop :=
  ltb (key y) (key x) = false.

(** A word without the space character. *)
Fixpoint space_free (s : string) : bool :=
  match s with
  | EmptyString => true
  | String c s' => negb (Ascii.eqb c " ") && space_free s'
  end.

(** ** Concrete inputs for the examples *)

(** A stand-in stemmer for the examples: it leaves every word as it is. *)
Definition plain_stem (word : string) : string := word.

Definition demo_creator (kind : string) : IndexCreator :=
  mkIndexCreator "data/" "data/github/" "use.methname.h5" "use.tokens.h5"
    "use.apiseq.h5" kind
    [("UNK", 1%Z); ("store", 2%Z); ("new", 3%Z); ("get_file", 4%Z)]
    [("UNK", 1%Z); ("new", 2%Z); ("store", 3%Z); ("a", 4%Z)]
    [("UNK", 1%Z); ("[]", 2%Z); ("String", 3%Z)].

Definition demo_files : list (string * file) :=
  [ ("data/github/use.methname.h5", Hdf5 [[2; 3]; [4; 99]]%Z);
    ("data/github/use.tokens.h5", Hdf5 [[2; 3; 3]; [4; 77]]%Z);
    ("data/github/use.apiseq.h5", Hdf5 [[2; 3; 2]; [55]]%Z) ].

Definition demo_world : World := mkWorld demo_files [] [] ["the"; "of"].

(** Ten documents; the method names of documents 0 and 1 hold "store" once
    and three times, document 2 to 9 hold other words. *)
Definition ten_methnames : Docs :=
  [ ["store"]; ["store"; "store_store"]; ["get"]; ["get"]; ["get"];
    ["get"]; ["get"]; ["get"]; ["get"]; ["get"] ].
Definition ten_empty : Docs := repeat [] 10.

(** Three documents whose token lines all hold "get". *)
Definition three_methnames : Docs := [["open"]; ["close"]; ["open"]].
Definition three_tokens : Docs := [["get"; "get"]; ["get"]; ["get_a"]].
Definition three_apiseqs : Docs := [[]; []; []].

(** A store whose method-name file holds no document while the token file
    holds one. *)
Definition demo_world_no_methnames : World :=
  mkWorld [ ("data/github/use.methname.h5", Hdf5 []);
            ("data/github/use.tokens.h5", Hdf5 [[3]]%Z);
            ("data/github/use.apiseq.h5", Hdf5 []) ] [] [] ["the"; "of"].

(** The same store without the method-name file. *)
Definition demo_world_missing : World := mkWorld (tl demo_files) [] [] ["the"; "of"].
(** ** Raw code preprocessing ([process_raw_code], lines 98-120)

    The loop body of lines 109-119 as a function of one line of the code
    base; reading the file and pickling the result are left to the loader. *)

Module RawCode.

Definition is_lower_az (c : ascii) : bool :=
  let n := nat_of_ascii c in ((97 <=? n) && (n <=? 122))%nat.
Definition is_upper_AZ (c : ascii) : bool :=
  let n := nat_of_ascii c in ((65 <=? n) && (n <=? 90))%nat.

(** [str.lower()] on one character (code points below 256). *)
Definition lower_char (c : ascii) : ascii :=
  let n := nat_of_ascii c in
  if (((65 <=? n) && (n <=? 90))
      || ((192 <=? n) && (n <=? 222) && negb (n =? 215)))%nat
  then ascii_of_nat (n + 32) else c.

Fixpoint lower (s : string) : string :=
  match s with
  | EmptyString => EmptyString
  | String c s' => String (lower_char c) (lower s')
  end.

(** [re.sub(pattern, repl, s)] for a pattern that never matches the empty
    string: [matcher s] is the length of the match that starts at the head
    of [s], if there is one; matches are taken leftmost and do not overlap. *)
Fixpoint re_sub (matcher : string -> option nat) (repl : string) (skip : nat)
    (s : string) : string :=
  match s with
  | EmptyString => EmptyString
  | String c s' =>
      match skip with
      | S k => re_sub matcher repl k s'
      | O =>
          match matcher s with
          | Some n => repl ++ re_sub matcher repl (n - 1) s'
          | None => String c (re_sub matcher repl 0 s')
          end
      end
  end.

Definition quote : ascii := ascii_of_nat 34.
Definition newline : ascii := ascii_of_nat 10.

(** [pattern0], a double quote, at most one character that is neither a
    double quote nor a newline, and a double quote. *)
Definition match_pattern0 (s : string) : option nat :=
  match s with
  | String q (String d rest) =>
      if Ascii.eqb q quote then
        match rest with
        | String e _ =>
            if negb (Ascii.eqb d quote) && negb (Ascii.eqb d newline) && Ascii.eqb e quote
            then Some 3
            else if Ascii.eqb d quote then Some 2 else None
        | EmptyString => if Ascii.eqb d quote then Some 2 else None
        end
      else None
  | _ => None
  end.

(** The character class of [pattern1] before negation: an opening bracket, a
    letter of [a-zA-Z] or a space. *)
Definition kept (c : ascii) : bool :=
  Ascii.eqb c "[" || is_lower_az c || is_upper_AZ c || Ascii.eqb c " ".

(** Length of the longest run of characters satisfying [p] at the head. *)
Fixpoint run_length (p : ascii -> bool) (s : string) : nat :=
  match s with
  | EmptyString => 0
  | String c s' => if p c then S (run_length p s') else 0
  end.

(** [pattern1], one or more characters outside the class. *)
Definition match_pattern1 (s : string) : option nat :=
  match run_length (fun c => negb (kept c)) s with
  | O => None
  | n => Some n
  end.

(** [pattern2], two or more spaces. *)
Definition match_pattern2 (s : string) : option nat :=
  match run_length (fun c => Ascii.eqb c " ") s with
  | O | S O => None
  | n => Some n
  end.

(** [re.sub(pattern3, r' \1', word)]: a letter of [A-Z] gets a space in front
    when it follows a letter of [a-z], or when it is not the first character
    and a letter of [a-z] follows it. The look-arounds read the word as it
    was, so [prev] is the character before in the input. *)
Fixpoint camel_split (prev : option ascii) (word : string) : string :=
  match word with
  | EmptyString => EmptyString
  | String c rest =>
      let next_lower := match rest with
                        | String d _ => is_lower_az d
                        | EmptyString => false
                        end in
      let hit := is_upper_AZ c
                 && match prev with
                    | Some p => is_lower_az p || next_lower
                    | None => false
                    end in
      if hit then String " " (String c (camel_split (Some c) rest))
      else String c (camel_split (Some c) rest)
  end.

Definition do_not_split : StrSet :=
  ["ArrayList"; "ArrayType"; "HashMap"; "heatMapTL"; "HttpClient"; "InputStream";
   "OutputStram"; "ReadOnly"; "StringBuffer"; "yyyyMMdd"; "YYYYMMDD"].

(** [word[-8:-1]] *)
Definition slice_m8_m1 (word : string) : string :=
  let n := String.length word in
  substring (n - 8) ((n - 1) - (n - 8)) word.

(** Lines 114-118 for one word. *)
Definition process_word (word : string) : string :=
  if set_mem word do_not_split || (slice_m8_m1 word =? "xception")
  then lower word
  else lower (camel_split None word).

(** Lines 109-119 for one line. *)
Definition process_line (line : string) : list string :=
  let line := re_sub match_pattern0 EmptyString 0 line in
  let line := re_sub match_pattern1 " " 0 line in
  let line := re_sub match_pattern2 " " 0 (PyStr.strip line) in
  let line := PyStr.split " " line in
  map process_word line.

(** Lines 108-119: the list that is pickled. *)
Definition process_lines (lines : list string) : list (list string) :=
  map process_line lines.

(** Every character of [s] satisfies [p]. *)
Fixpoint all_chars (p : ascii -> bool) (s : string) : bool :=
  match s with
  | EmptyString => true
  | String c s' => p c && all_chars p s'
  end.

(** The characters that a processed word can hold: a letter of [a-z], an
    opening bracket or a space. *)
Definition out_char (c : ascii) : bool :=
  is_lower_az c || Ascii.eqb c "[" || Ascii.eqb c " ".

(** A letter of [a-z] or an opening bracket. *)
Definition plain_char (c : ascii) : bool := is_lower_az c || Ascii.eqb c "[".

(** A letter of [a-zA-Z] or an opening bracket. *)
Definition code_char (c : ascii) : bool :=
  is_lower_az c || is_upper_AZ c || Ascii.eqb c "[".

End RawCode.

(** ** Further views *)

(** The sum of all raw counts of an index. *)
Definition counter_total (cnt : Counter) : nat := list_sum (map snd cnt).
Definition total_count (index : RawIndex) : nat :=
  list_sum (map (fun e => counter_total (snd e)) index).

(** Lexicographic order on the sort keys of line 234. *)
Definition key_le (a b : R * nat) : Prop :=
  (fst a < fst b)%R \/ (fst a = fst b /\ snd a <= snd b).

(** * Checks on concrete inputs *)

Example syn_read : replace_synonyms "read" = "load". Proof. vm_compute. reflexivity. Qed.
Example syn_readable : replace_synonyms "readable" = "readable". Proof. vm_compute. reflexivity. Qed.
Example syn_push : replace_synonyms "push" = "add". Proof. vm_compute. reflexivity. Qed.
Example syn_object : replace_synonyms "object" = "instanc". Proof. vm_compute. reflexivity. Qed.
Example syn_writer : replace_synonyms "writer" = "storer". Proof. vm_compute. reflexivity. Qed.
Example syn_real : replace_synonyms "real" = "float". Proof. vm_compute. reflexivity. Qed.
Example syn_unk : replace_synonyms "UNK" = "UNK". Proof. vm_compute. reflexivity. Qed.
Example split3 : PyStr.split "_" "get_a_" = ["get"; "a"; ""]. Proof. vm_compute. reflexivity. Qed.
Example demo_load :
  fst (load_data (demo_creator "inverted_index") demo_world)
  = Ok (Ret3 [["store"; "new"]; ["get_file"; "UNK"]]
             [["new"; "store"; "store"]; ["a"; "UNK"]]
             [["[]"; "String"; "[]"]; ["UNK"]]).
Proof. vm_compute. reflexivity. Qed.

Example demo_accumulate :
  accumulate plain_stem ["the"; "of"]
    [["store"; "new"]; ["get_file"; "UNK"]]
    [["new"; "store"; "store"]; ["a"; "UNK"]]
    [["[]"; "String"; "[]"]; ["UNK"]]
  = [("store", [(0, 3)]); ("creat", [(0, 1)]); ("get", [(1, 1)]); ("file", [(1, 1)]);
     ("UNK", [(1, 2)]); ("[]", [(0, 2)])].
Proof. vm_compute. reflexivity. Qed.

(** An empty stopword set is false in [if stopwords:], so such a call runs
    the branch of lines 178-188 and only counts the token "[]". *)
Example empty_stopword_set_counts_brackets_only :
  add_to_index plain_stem [] [["store"; "[]"]] (Some []) = [("[]", [(0, 1)])].
Proof. vm_compute. reflexivity. Qed.

Example demo_build_word_indices :
  create_index plain_stem (demo_creator "word_indices") demo_world
  = (Ok tt, mkWorld demo_files [] ["Nothing to be done."] ["the"; "of"]).
Proof. vm_compute. reflexivity. Qed.

(** * Properties *)

(** ** Dictionaries *)

Section DictFacts.
Context {K V : Type} (eqb : K -> K -> bool).
Hypothesis eqb_eq : forall a b, eqb a b = true <-> a = b.

Lemma eqb_refl_true (k : K) : eqb k k = true.
Proof. apply eqb_eq. reflexivity. Qed.

Lemma eqb_neq_false (a b : K) : a <> b -> eqb a b = false.
Proof.
  intros Hne. destruct (eqb a b) eqn:E; [|reflexivity].
  apply eqb_eq in E. contradiction.
Qed.

Lemma dict_get_set_same (d : list (K * V)) k v :
  dict_get eqb (dict_set eqb d k v) k = Some v.
Proof.
  induction d as [|[k' v'] d IH]; simpl.
  - rewrite eqb_refl_true. reflexivity.
  - destruct (eqb k' k) eqn:E; simpl; rewrite E; auto.
Qed.

Lemma dict_get_set_other (d : list (K * V)) k k' v :
  k <> k' -> dict_get eqb (dict_set eqb d k v) k' = dict_get eqb d k'.
Proof.
  intros Hne. induction d as [|[k0 v0] d IH]; simpl.
  - rewrite eqb_neq_false; auto.
  - destruct (eqb k0 k) eqn:E; simpl.
    + apply eqb_eq in E. subst k0. rewrite eqb_neq_false by assumption. reflexivity.
    + rewrite IH. reflexivity.
Qed.

Lemma dict_get_In (d : list (K * V)) k v :
  dict_get eqb d k = Some v -> In (k, v) d.
Proof.
  induction d as [|[k0 v0] d IH]; simpl; [discriminate|].
  destruct (eqb k0 k) eqn:E.
  - intros [= ->]. apply eqb_eq in E. subst. now left.
  - intros H. right. auto.
Qed.

Lemma dict_get_None (d : list (K * V)) k :
  dict_get eqb d k = None <-> ~ In k (map fst d).
Proof.
  induction d as [|[k0 v0] d IH]; simpl.
  - tauto.
  - destruct (eqb k0 k) eqn:E.
    + apply eqb_eq in E. subst. split; [discriminate|]. intros H. exfalso. apply H. now left.
    + rewrite IH. split.
      * intros H [H1|H1]; [|tauto]. subst. rewrite eqb_refl_true in E. discriminate.
      * tauto.
Qed.

Lemma In_dict_get (d : list (K * V)) k v :
  NoDup (map fst d) -> In (k, v) d -> dict_get eqb d k = Some v.
Proof.
  induction d as [|[k0 v0] d IH]; simpl; [tauto|].
  intros Hnd [H|H].
  - inversion H; subst. rewrite eqb_refl_true. reflexivity.
  - inversion Hnd as [|? ? Hnotin Hnd']; subst.
    destruct (eqb k0 k) eqn:E.
    + apply eqb_eq in E. subst. exfalso. apply Hnotin.
      change k with (fst (k, v)). now apply in_map.
    + auto.
Qed.

(** Keys after [d[k] = v]. *)
Lemma dict_set_keys (d : list (K * V)) k v :
  map fst (dict_set eqb d k v)
  = match dict_get eqb d k with
    | Some _ => map fst d
    | None => (map fst d ++ [k])%list
    end.
Proof.
  induction d as [|[k0 v0] d IH]; simpl; [reflexivity|].
  destruct (eqb k0 k) eqn:E; simpl; [reflexivity|].
  rewrite IH. destruct (dict_get eqb d k); reflexivity.
Qed.

Lemma dict_set_NoDup (d : list (K * V)) k v :
  NoDup (map fst d) -> NoDup (map fst (dict_set eqb d k v)).
Proof.
  intros Hnd. rewrite dict_set_keys.
  destruct (dict_get eqb d k) eqn:E; [assumption|].
  apply dict_get_None in E.
  apply NoDup_rev in Hnd. rewrite <- (rev_involutive (map fst d ++ [k])).
  apply NoDup_rev. rewrite rev_app_distr. simpl. constructor; [|assumption].
  rewrite <- in_rev. assumption.
Qed.

(** What [d[k] = v] stores. *)
Lemma dict_set_In (d : list (K * V)) k v k' v' :
  In (k', v') (dict_set eqb d k v) -> (k' = k /\ v' = v) \/ In (k', v') d.
Proof.
  induction d as [|[k0 v0] d IH]; simpl.
  - intros [H|[]]. inversion H. now left.
  - destruct (eqb k0 k) eqn:E; simpl.
    + intros [H|H]; [|tauto]. inversion H; subst. apply eqb_eq in E. subst. now left.
    + intros [H|H]; [tauto|]. destruct (IH H); tauto.
Qed.

Lemma dict_set_length_ge (d : list (K * V)) k v :
  length d <= length (dict_set eqb d k v).
Proof.
  induction d as [|[k0 v0] d IH]; simpl; [lia|].
  destruct (eqb k0 k); simpl; lia.
Qed.

(** [dict(items)] of items with distinct keys keeps them as they are. *)
Lemma dict_of_items_app (d items : list (K * V)) :
  NoDup (map fst (d ++ items)) ->
  fold_left (fun d kv => dict_set eqb d (fst kv) (snd kv)) items d = (d ++ items)%list.
Proof.
  revert d. induction items as [|[k v] items IH]; intros d Hnd; simpl.
  - now rewrite app_nil_r.
  - assert (Hset : dict_set eqb d k v = (d ++ [(k, v)])%list).
    { clear IH. induction d as [|[k0 v0] d IHd]; simpl; [reflexivity|].
      simpl in Hnd. inversion Hnd as [|? ? Hnotin Hnd']; subst.
      rewrite eqb_neq_false.
      - rewrite IHd; auto.
      - intros ->. apply Hnotin. rewrite map_app, in_app_iff. right. now left. }
    rewrite Hset, IH; rewrite <- app_assoc; simpl; auto.
Qed.

Lemma dict_of_items_NoDup (items : list (K * V)) :
  NoDup (map fst items) -> dict_of_items eqb items = items.
Proof. intros H. unfold dict_of_items. now rewrite dict_of_items_app. Qed.
End DictFacts.

Lemma string_eqb_eq (a b : string) : (a =? b) = true <-> a = b.
Proof. apply String.eqb_eq. Qed.

(** ** Accumulation *)

Lemma nat_eqb_eq (a b : nat) : Nat.eqb a b = true <-> a = b.
Proof. apply Nat.eqb_eq. Qed.

Lemma count_of_bump (index : RawIndex) word i word' i' :
  count_of (bump index word i) word' i'
  = count_of index word' i' + (if (word =? word') && Nat.eqb i i' then 1 else 0).
Proof.
  unfold count_of, bump, index_get, counter_get, counter_incr, counter_get.
  destruct (String.eqb_spec word word') as [<-|Hw]; simpl.
  - destruct (dict_get String.eqb index word) as [cnt|] eqn:E;
      rewrite (dict_get_set_same _ string_eqb_eq).
    + destruct (Nat.eqb_spec i i') as [<-|Hi].
      * rewrite (dict_get_set_same _ nat_eqb_eq). reflexivity.
      * rewrite (dict_get_set_other _ nat_eqb_eq) by assumption. lia.
    + simpl. destruct (Nat.eqb_spec i i'); reflexivity.
  - destruct (dict_get String.eqb index word) as [cnt|] eqn:E;
      rewrite (dict_get_set_other _ string_eqb_eq) by assumption; lia.
Qed.

Lemma count_of_bump_all (terms : list string) : forall (index : RawIndex) i word' i',
  count_of (bump_all index terms i) word' i'
  = count_of index word' i' + (if Nat.eqb i i' then occurrences word' terms else 0).
Proof.
  unfold bump_all, occurrences.
  induction terms as [|t terms IH]; intros index i word' i'; simpl.
  - destruct (Nat.eqb i i'); lia.
  - rewrite IH, count_of_bump.
    destruct (string_dec t word') as [->|Hne].
    + rewrite String.eqb_refl. simpl. destruct (Nat.eqb i i'); lia.
    + apply String.eqb_neq in Hne. rewrite Hne. simpl. destruct (Nat.eqb i i'); lia.
Qed.

Lemma wf_counter_incr (cnt : Counter) i : wf_counter cnt -> wf_counter (counter_incr cnt i).
Proof.
  intros (Hne & Hnd & Hpos). unfold counter_incr. repeat split.
  - intros E. pose proof (dict_set_length_ge Nat.eqb cnt i
      (match counter_get cnt i with Some n => n | None => 0 end + 1)) as Hl.
    rewrite E in Hl. destruct cnt; [congruence|simpl in Hl; lia].
  - now apply (dict_set_NoDup _ nat_eqb_eq).
  - apply Forall_forall. intros [k n] Hin.
    apply (dict_set_In _ nat_eqb_eq) in Hin. destruct Hin as [[_ ->]|Hin].
    + simpl. lia.
    + rewrite Forall_forall in Hpos. now apply (Hpos (k, n)).
Qed.

Lemma wf_counter_single i : wf_counter [(i, 1)].
Proof.
  repeat split; simpl.
  - discriminate.
  - constructor; [simpl; tauto|constructor].
  - repeat constructor.
Qed.

Lemma wf_bump (index : RawIndex) word i : wf_index index -> wf_index (bump index word i).
Proof.
  intros [Hnd Hall]. unfold bump, index_get.
  destruct (dict_get String.eqb index word) as [cnt|] eqn:E; split;
    try (now apply (dict_set_NoDup _ string_eqb_eq));
    apply Forall_forall; intros [w c] Hin;
    apply (dict_set_In _ string_eqb_eq) in Hin;
    rewrite Forall_forall in Hall;
    destruct Hin as [[_ ->]|Hin]; simpl; try (now apply (Hall (w, c))).
  - apply wf_counter_incr. apply (dict_get_In _ string_eqb_eq) in E. now apply (Hall (word, cnt)).
  - apply wf_counter_single.
Qed.

Lemma ids_below_bump n (index : RawIndex) word i :
  i < n -> ids_below n index -> ids_below n (bump index word i).
Proof.
  intros Hi Hall. unfold ids_below, bump, index_get, counter_incr in *.
  rewrite Forall_forall in Hall.
  destruct (dict_get String.eqb index word) as [cnt|] eqn:E;
    apply Forall_forall; intros [w c] Hin;
    apply (dict_set_In _ string_eqb_eq) in Hin;
    destruct Hin as [[_ ->]|Hin]; simpl; try (now apply (Hall (w, c))).
  - apply (dict_get_In _ string_eqb_eq) in E. apply Hall in E. simpl in E.
    rewrite Forall_forall in E.
    apply Forall_forall. intros [k m] Hin.
    apply (dict_set_In _ nat_eqb_eq) in Hin. destruct Hin as [[-> _]|Hin]; simpl; auto.
    now apply (E (k, m)).
  - repeat constructor. simpl. assumption.
Qed.

Lemma wf_bump_all terms : forall (index : RawIndex) i,
  wf_index index -> wf_index (bump_all index terms i).
Proof.
  unfold bump_all. induction terms; intros; simpl; auto using wf_bump.
Qed.

Lemma ids_below_bump_all n terms : forall (index : RawIndex) i,
  i < n -> ids_below n index -> ids_below n (bump_all index terms i).
Proof.
  unfold bump_all. induction terms; intros; simpl; auto using ids_below_bump.
Qed.

Lemma bump_all_app (index : RawIndex) t1 t2 i :
  bump_all index (t1 ++ t2)%list i = bump_all (bump_all index t1 i) t2 i.
Proof. unfold bump_all. apply fold_left_app. Qed.

Section AccumulationFacts.
Variable stem : string -> string.

Lemma add_piece_bump_all sw i (index : RawIndex) word :
  add_piece stem sw i index word = bump_all index (piece_terms stem sw word) i.
Proof.
  unfold add_piece, piece_terms.
  destruct ((String.length word <? 2)%nat || (18 <? String.length word)%nat || set_mem word sw);
    reflexivity.
Qed.

Lemma add_pieces_bump_all sw i pieces : forall index : RawIndex,
  fold_left (add_piece stem sw i) pieces index
  = bump_all index (flat_map (piece_terms stem sw) pieces) i.
Proof.
  induction pieces as [|p pieces IH]; intros index; simpl; [reflexivity|].
  rewrite IH, add_piece_bump_all, bump_all_app. reflexivity.
Qed.

Lemma add_line_bump_all w ws i line : forall index : RawIndex,
  add_line stem (w :: ws) i index line
  = bump_all index (field_terms stem (Some (w :: ws)) line) i.
Proof.
  unfold add_line. simpl field_terms.
  induction line as [|raw line IH]; intros index; simpl; [reflexivity|].
  rewrite IH, add_pieces_bump_all, bump_all_app. reflexivity.
Qed.

Lemma add_api_line_bump_all i line : forall index : RawIndex,
  add_api_line i index line = bump_all index (filter (fun word => word =? "[]") line) i.
Proof.
  unfold add_api_line.
  induction line as [|word line IH]; intros index; simpl; [reflexivity|].
  rewrite IH. destruct (word =? "[]"); reflexivity.
Qed.

(** Both branches of [add_to_index] are one loop over the terms that the
    field yields. *)
Lemma add_to_index_bump_all (index : RawIndex) lines stopwords :
  add_to_index stem index lines stopwords
  = fold_left (fun index il => bump_all index (field_terms stem stopwords (snd il)) (fst il))
              (enumerate lines) index.
Proof.
  unfold add_to_index, enumerate. generalize 0 as n. revert index.
  destruct stopwords as [[|w ws]|];
    induction lines as [|line lines IH]; intros index n; simpl; try reflexivity;
    rewrite IH; try rewrite add_line_bump_all; try rewrite add_api_line_bump_all;
    reflexivity.
Qed.

Lemma field_terms_nil stopwords : field_terms stem stopwords [] = [].
Proof. destruct stopwords as [[|w ws]|]; reflexivity. Qed.

Lemma count_of_enumerate_from stopwords lines : forall n (index : RawIndex) word i,
  count_of (fold_left (fun index il =>
              bump_all index (field_terms stem stopwords (snd il)) (fst il))
            (enumerate_from n lines) index) word i
  = count_of index word i
    + (if (n <=? i)%nat
       then occurrences word (field_terms stem stopwords (nth (i - n) lines []))
       else 0).
Proof.
  induction lines as [|line lines IH]; intros n index word i; simpl.
  - destruct (i - n); rewrite field_terms_nil; destruct (n <=? i)%nat; simpl; lia.
  - rewrite IH, count_of_bump_all. cbn [fst snd].
    destruct (Nat.eqb_spec n i) as [->|Hne].
    + rewrite Nat.sub_diag, Nat.leb_refl.
      replace (S i <=? i)%nat with false by (symmetry; apply Nat.leb_gt; lia).
      cbn [nth]. lia.
    + destruct (Nat.leb_spec n i) as [Hle|Hgt].
      * replace (S n <=? i)%nat with true by (symmetry; apply Nat.leb_le; lia).
        replace (i - n) with (S (i - S n)) by lia. cbn [nth]. lia.
      * replace (S n <=? i)%nat with false by (symmetry; apply Nat.leb_gt; lia). lia.
Qed.

(** The count that one call adds for [word] in document [i] is the number
    of times the document's line yields [word]. *)
Lemma count_of_add_to_index (index : RawIndex) lines stopwords word i :
  count_of (add_to_index stem index lines stopwords) word i
  = count_of index word i
    + occurrences word (field_terms stem stopwords (nth i lines [])).
Proof.
  rewrite add_to_index_bump_all. unfold enumerate.
  rewrite count_of_enumerate_from. simpl. now rewrite Nat.sub_0_r.
Qed.

Lemma wf_enumerate_from stopwords lines : forall n (index : RawIndex),
  wf_index index ->
  wf_index (fold_left (fun index il =>
              bump_all index (field_terms stem stopwords (snd il)) (fst il))
            (enumerate_from n lines) index).
Proof.
  induction lines; intros; simpl; auto using wf_bump_all.
Qed.

Lemma wf_add_to_index (index : RawIndex) lines stopwords :
  wf_index index -> wf_index (add_to_index stem index lines stopwords).
Proof. rewrite add_to_index_bump_all. apply wf_enumerate_from. Qed.

Lemma ids_below_enumerate_from stopwords bound lines : forall n (index : RawIndex),
  n + length lines <= bound -> ids_below bound index ->
  ids_below bound (fold_left (fun index il =>
              bump_all index (field_terms stem stopwords (snd il)) (fst il))
            (enumerate_from n lines) index).
Proof.
  induction lines as [|line lines IH]; intros n index Hn Hb; simpl in *; auto.
  apply IH; [lia|]. apply ids_below_bump_all; [lia|assumption].
Qed.

Lemma ids_below_add_to_index bound (index : RawIndex) lines stopwords :
  length lines <= bound -> ids_below bound index ->
  ids_below bound (add_to_index stem index lines stopwords).
Proof.
  intros. rewrite add_to_index_bump_all. now apply ids_below_enumerate_from.
Qed.

Lemma wf_nil : wf_index [].
Proof. split; constructor. Qed.

Lemma wf_accumulate sw m t a : wf_index (accumulate stem sw m t a).
Proof. unfold accumulate. auto using wf_add_to_index, wf_nil. Qed.

Lemma ids_below_accumulate sw m t a :
  length t <= length m -> length a <= length m ->
  ids_below (length m) (accumulate stem sw m t a).
Proof.
  intros. unfold accumulate.
  repeat apply ids_below_add_to_index; auto. constructor.
Qed.

End AccumulationFacts.

(** ** Real logarithms *)

Lemma ln10_pos : (0 < ln 10)%R.
Proof. rewrite <- ln_1. apply ln_increasing; lra. Qed.

Lemma log10_1 : log10 1 = 0%R.
Proof. unfold log10. rewrite ln_1. unfold Rdiv. apply Rmult_0_l. Qed.

Lemma log10_increasing (x y : R) : (0 < x)%R -> (x < y)%R -> (log10 x < log10 y)%R.
Proof.
  intros Hx Hxy. unfold log10, Rdiv.
  apply Rmult_lt_compat_r.
  - apply Rinv_0_lt_compat, ln10_pos.
  - now apply ln_increasing.
Qed.

Lemma log10_pos (x : R) : (1 < x)%R -> (0 < log10 x)%R.
Proof. intros H. rewrite <- log10_1. apply log10_increasing; lra. Qed.

Lemma log10_eq_0 (x : R) : (0 < x)%R -> log10 x = 0%R -> x = 1%R.
Proof.
  intros Hx H0.
  destruct (Rtotal_order x 1) as [Hlt|[Heq|Hgt]]; [|assumption|].
  - pose proof (log10_increasing x 1 Hx Hlt) as H. rewrite log10_1, H0 in H. lra.
  - pose proof (log10_pos x Hgt) as H. lra.
Qed.

Lemma ratio_pos (N df : nat) : 1 <= N -> 1 <= df -> (0 < INR N / INR df)%R.
Proof.
  intros HN Hdf. apply Rdiv_lt_0_compat; apply lt_0_INR; lia.
Qed.

Lemma idf_same (N : nat) : 1 <= N -> idf N N = 0%R.
Proof.
  intros HN. unfold idf.
  replace (INR N / INR N)%R with 1%R; [apply log10_1|].
  field. apply not_0_INR. lia.
Qed.

Lemma idf_decreasing (N df1 df2 : nat) :
  1 <= N -> 1 <= df1 -> df1 < df2 -> (idf N df2 < idf N df1)%R.
Proof.
  intros HN H1 H12. unfold idf. apply log10_increasing.
  - apply ratio_pos; lia.
  - unfold Rdiv. apply Rmult_lt_compat_l.
    + apply lt_0_INR. lia.
    + apply Rinv_lt_contravar.
      * apply Rmult_lt_0_compat; apply lt_0_INR; lia.
      * apply lt_INR. assumption.
Qed.

Lemma idf_nonneg (N df : nat) : 1 <= df -> df <= N -> (0 <= idf N df)%R.
Proof.
  intros H1 HN. destruct (Nat.eq_dec df N) as [->|Hne].
  - rewrite idf_same by lia. lra.
  - left. rewrite <- (idf_same N) by lia. apply idf_decreasing; lia.
Qed.

Lemma idf_zero_iff (N df : nat) : 1 <= df -> df <= N -> (idf N df = 0%R <-> df = N).
Proof.
  intros H1 HN. split.
  - intros H0. destruct (Nat.eq_dec df N) as [|Hne]; [assumption|].
    assert (Hlt : (idf N N < idf N df)%R) by (apply idf_decreasing; lia).
    rewrite idf_same in Hlt by lia. lra.
  - intros ->. apply idf_same. lia.
Qed.

(** ** The weighting pass *)

Lemma mapM_ok {A B} (f : A -> result B) (g : A -> B) (l : list A) :
  (forall x, In x l -> f x = Ok (g x)) -> mapM f l = Ok (map g l).
Proof.
  induction l as [|x l IH]; intros H; simpl; [reflexivity|].
  rewrite (H x) by now left. simpl.
  rewrite IH by (intros; apply H; now right). reflexivity.
Qed.

Lemma math_log10_ok (x : R) : (0 < x)%R -> math_log10 x = Ok (log10 x).
Proof. intros H. unfold math_log10. destruct (Rle_dec x 0); [lra|reflexivity]. Qed.

Lemma math_log10_count (tf : nat) : math_log10 (INR (1 + tf)) = Ok (log10 (INR (1 + tf))).
Proof. apply math_log10_ok. apply lt_0_INR. lia. Qed.

Lemma weight_counter_ok (N : nat) (cnt : Counter) :
  1 <= N -> cnt <> [] -> weight_counter N cnt = Ok (weighted N cnt).
Proof.
  intros HN Hne. unfold weight_counter, true_div. rewrite length_map.
  destruct (Nat.eqb_spec (length cnt) 0) as [E|E].
  - destruct cnt; [congruence|discriminate].
  - cbn [rbind]. rewrite math_log10_ok by (apply ratio_pos; lia). cbn [rbind].
    unfold weighted. apply mapM_ok. intros p _. cbv beta.
    rewrite math_log10_count. reflexivity.
Qed.

Lemma weight_counter_no_documents (cnt : Counter) :
  cnt <> [] -> weight_counter 0 cnt = Raise (ValueError "math domain error").
Proof.
  intros Hne. unfold weight_counter, true_div. rewrite length_map.
  destruct (Nat.eqb_spec (length cnt) 0) as [E|E].
  - destruct cnt; [congruence|discriminate].
  - cbn [rbind INR]. unfold math_log10.
    destruct (Rle_dec (0 / INR (length cnt)) 0) as [|Hn]; [reflexivity|].
    exfalso. apply Hn. unfold Rdiv. rewrite Rmult_0_l. lra.
Qed.

Lemma weight_pass_ok (N : nat) (index : RawIndex) :
  1 <= N -> Forall (fun e => snd e <> []) index ->
  weight_pass N index = Ok (map (fun e => (fst e, weighted N (snd e))) index).
Proof.
  intros HN Hall. unfold weight_pass. apply mapM_ok.
  intros e Hin. rewrite Forall_forall in Hall. cbv beta.
  rewrite weight_counter_ok; auto.
Qed.


Lemma wf_index_nonempty (index : RawIndex) :
  wf_index index -> Forall (fun e => snd e <> []) index.
Proof.
  intros [_ H]. eapply Forall_impl; [|exact H]. intros e (Hne & _). exact Hne.
Qed.

(** ** The ordering pass *)

Section SortedFacts.
Context {A K : Type} (key : A -> K) (ltb : K -> K -> bool).
Hypothesis ltb_asym : forall a b, ltb a b = true -> ltb b a = false.

Lemma insert_sorted_perm (x : A) (l : list A) :
  Permutation (x :: l) (insert_sorted key ltb x l).
Proof.
  induction l as [|y l IH]; simpl; [reflexivity|].
  destruct (ltb (key x) (key y)); [reflexivity|].
  rewrite perm_swap. now constructor.
Qed.

Lemma sorted_perm (l : list A) : Permutation l (sorted key ltb l).
Proof.
  unfold sorted.
  assert (H : forall acc, Permutation (acc ++ l)
             (fold_left (fun acc x => insert_sorted key ltb x acc) l acc)).
  { induction l as [|x l IH]; intros acc; simpl.
    - now rewrite app_nil_r.
    - rewrite <- IH. rewrite <- insert_sorted_perm.
      symmetry. apply Permutation_middle. }
  apply (H []).
Qed.

Lemma insert_sorted_Sorted (x : A) (l : list A) :
  Sorted (in_order key ltb) l -> Sorted (in_order key ltb) (insert_sorted key ltb x l).
Proof.
  induction 1 as [|y l Hs IH Hhd]; simpl.
  - repeat constructor.
  - destruct (ltb (key x) (key y)) eqn:E.
    + constructor; [now constructor|]. constructor. unfold in_order. auto.
    + constructor; [assumption|].
      destruct l as [|z l]; simpl.
      * constructor. exact E.
      * destruct (ltb (key x) (key z)); constructor; [exact E|].
        now inversion Hhd.
Qed.

Lemma sorted_Sorted (l : list A) : Sorted (in_order key ltb) (sorted key ltb l).
Proof.
  unfold sorted.
  assert (H : forall acc, Sorted (in_order key ltb) acc ->
             Sorted (in_order key ltb)
               (fold_left (fun acc x => insert_sorted key ltb x acc) l acc)).
  { induction l as [|x l IH]; intros acc Hacc; simpl; [assumption|].
    apply IH. now apply insert_sorted_Sorted. }
  apply H. constructor.
Qed.
End SortedFacts.

Lemma tuple_ltb_asym (a b : R * nat) : tuple_ltb a b = true -> tuple_ltb b a = false.
Proof.
  unfold tuple_ltb.
  destruct (Req_dec_T (fst a) (fst b)) as [E|E], (Req_dec_T (fst b) (fst a)) as [E'|E'];
    try congruence.
  - intros H. apply Nat.ltb_lt in H. apply Nat.ltb_ge. lia.
  - destruct (Rlt_dec (fst a) (fst b)), (Rlt_dec (fst b) (fst a)); try congruence.
    lra.
Qed.

Lemma in_order_weights (a b : nat * R) :
  in_order sort_key tuple_ltb a b -> fst a <> fst b ->
  (snd b <= snd a)%R /\ (snd a = snd b -> fst a < fst b).
Proof.
  unfold in_order, tuple_ltb, sort_key. simpl. intros H Hne.
  destruct (Req_dec_T (- snd b) (- snd a)) as [E|E].
  - apply Nat.ltb_ge in H. split; [lra|]. intros _. lia.
  - destruct (Rlt_dec (- snd b) (- snd a)); [discriminate|].
    split; [lra|]. intros E'. exfalso. apply E. now rewrite E'.
Qed.

Lemma Sorted_ranked (cnt : WCounter) :
  Sorted (in_order sort_key tuple_ltb) cnt -> NoDup (map fst cnt) -> ranked cnt.
Proof.
  intros Hs Hnd. unfold ranked.
  induction Hs as [|x l Hs IH Hhd]; intros k a b Ha Hb.
  - destruct k; discriminate.
  - simpl in Hnd. inversion Hnd as [|? ? Hnotin Hnd']; subst.
    destruct k as [|k]; simpl in Ha, Hb.
    + injection Ha as ->. destruct l as [|y l]; [discriminate|].
      simpl in Hb. injection Hb as ->.
      apply in_order_weights; [now inversion Hhd|].
      intros E. apply Hnotin. simpl. now left.
    + eapply IH; eauto.
Qed.

Lemma weighted_keys (N : nat) (cnt : Counter) : map fst (weighted N cnt) = map fst cnt.
Proof. unfold weighted. rewrite map_map. reflexivity. Qed.

(** On a counter, [Counter(dict(sorted(...)))] is [sorted(...)] itself. *)
Lemma sort_counter_sorted (cnt : WCounter) :
  NoDup (map fst cnt) -> sort_counter cnt = sorted sort_key tuple_ltb cnt.
Proof.
  intros Hnd. unfold sort_counter. apply (dict_of_items_NoDup _ nat_eqb_eq).
  eapply Permutation_NoDup; [|exact Hnd].
  apply Permutation_map, sorted_perm.
Qed.

Lemma sort_counter_perm (cnt : WCounter) :
  NoDup (map fst cnt) -> Permutation cnt (sort_counter cnt).
Proof. intros H. rewrite sort_counter_sorted by assumption. apply sorted_perm. Qed.

Lemma sort_counter_ranked (cnt : WCounter) :
  NoDup (map fst cnt) -> ranked (sort_counter cnt).
Proof.
  intros Hnd. rewrite sort_counter_sorted by assumption.
  apply Sorted_ranked.
  - apply sorted_Sorted. exact tuple_ltb_asym.
  - eapply Permutation_NoDup; [|exact Hnd]. apply Permutation_map, sorted_perm.
Qed.

(** ** The finished index *)

Section BuildFacts.
Variable stem : string -> string.

Lemma build_ok sw m t a :
  1 <= length m ->
  build stem sw m t a
  = Ok (map (fun e => (fst e, finished (length m) (snd e))) (accumulate stem sw m t a)).
Proof.
  intros HN. unfold build.
  rewrite weight_pass_ok; [|assumption|apply wf_index_nonempty, wf_accumulate].
  simpl. unfold sort_pass. rewrite map_map. reflexivity.
Qed.

Lemma build_Ok_inv sw m t a fin :
  build stem sw m t a = Ok fin ->
  fin = map (fun e => (fst e, finished (length m) (snd e))) (accumulate stem sw m t a).
Proof.
  destruct (length m) as [|N] eqn:EN.
  - unfold build. rewrite EN.
    pose proof (wf_index_nonempty _ (wf_accumulate stem sw m t a)) as Hne.
    destruct (accumulate stem sw m t a) as [|e raw]; simpl.
    + intros [= <-]. reflexivity.
    + inversion Hne; subst. unfold weight_pass. cbn [mapM].
      rewrite weight_counter_no_documents by assumption. discriminate.
  - rewrite <- EN. rewrite build_ok by lia. now intros [= <-].
Qed.
End BuildFacts.

(** ** The loader *)

Ltac run_world :=
  unfold bind, ret, lift, print, py_assert, path_exists, load_hdf5, save_pickle,
    load_pickle, db_save_index, stopwords_add, get_stopwords in *; simpl in *.

(** With the three files in place and the inverted index selected,
    [load_data] returns the three translated fields and prints one line. *)
Lemma load_data_inverted (self : IndexCreator) (w : World) rows_m rows_t rows_a :
  index_type self = "inverted_index" ->
  dict_get String.eqb (files w) (dataset_path self ++ use_methname self) = Some (Hdf5 rows_m) ->
  dict_get String.eqb (files w) (dataset_path self ++ use_tokens self) = Some (Hdf5 rows_t) ->
  dict_get String.eqb (files w) (dataset_path self ++ use_apiseq self) = Some (Hdf5 rows_a) ->
  load_data self w
  = (Ok (Ret3 (map (translate (invert_vocab (methname_vocab self))) rows_m)
              (map (translate (invert_vocab (token_vocab self))) rows_t)
              (map (translate (invert_vocab (apiseq_vocab self))) rows_a)),
     mkWorld (files w) (database w)
       (stdout w ++ ["Translating methname, token and api sequence word indices back to natural language...   Please wait."])%list
       (stopwords w)).
Proof.
  intros Hty Hm Ht Ha. unfold load_data. run_world.
  repeat (first [rewrite Hm | rewrite Ht | rewrite Ha]; simpl).
  rewrite Hty. reflexivity.
Qed.

(** A 3-tuple can only come from the inverted-index branch, and loading
    changes nothing but the standard output. *)
Lemma load_data_Ret3 (self : IndexCreator) (w w1 : World) m t a :
  load_data self w = (Ok (Ret3 m t a), w1) ->
  index_type self = "inverted_index"
  /\ files w1 = files w /\ database w1 = database w /\ stopwords w1 = stopwords w.
Proof.
  unfold load_data. run_world.
  destruct (dict_get String.eqb (files w) (dataset_path self ++ use_methname self))
    as [fm|] eqn:Em; simpl; [|discriminate].
  destruct (dict_get String.eqb (files w) (dataset_path self ++ use_tokens self))
    as [ft|] eqn:Et; simpl; [|discriminate].
  destruct (dict_get String.eqb (files w) (dataset_path self ++ use_apiseq self))
    as [fa|] eqn:Ea; simpl; [|discriminate].
  rewrite Em. destruct fm; simpl; [|discriminate].
  rewrite Et. destruct ft; simpl; [|discriminate].
  rewrite Ea. destruct fa; simpl; [|discriminate].
  destruct (index_type self =? "word_indices") eqn:E1; [discriminate|].
  destruct (index_type self =? "inverted_index") eqn:E2; [|discriminate].
  intros [= <- <- <- <-]; simpl. apply String.eqb_eq in E2. auto.
Qed.

(** The first missing file decides the assertion that fails; the world is
    left as it was. *)
Lemma load_data_missing (self : IndexCreator) (w : World) :
  let present path := match dict_get String.eqb (files w) path with
                      | Some _ => true | None => false end in
  let pm := present (dataset_path self ++ use_methname self) in
  let pt := present (dataset_path self ++ use_tokens self) in
  let pa := present (dataset_path self ++ use_apiseq self) in
  pm && pt && pa = false ->
  load_data self w
  = (Raise (AssertionError
       (if negb pm then "Method names of real data not found."
        else if negb pt then "Tokens of real data not found."
        else "API sequences of real data not found.")), w).
Proof.
  unfold load_data. run_world.
  destruct (dict_get String.eqb (files w) (dataset_path self ++ use_methname self));
    simpl; [|reflexivity].
  destruct (dict_get String.eqb (files w) (dataset_path self ++ use_tokens self));
    simpl; [|reflexivity].
  destruct (dict_get String.eqb (files w) (dataset_path self ++ use_apiseq self));
    simpl; [discriminate|reflexivity].
Qed.

(** In the [word_indices] variant [load_data] never returns a 3-tuple. *)
Lemma load_data_word_indices (self : IndexCreator) (w : World) :
  index_type self = "word_indices" ->
  forall m t a w1, load_data self w <> (Ok (Ret3 m t a), w1).
Proof.
  intros Hty m t a w1 H. apply load_data_Ret3 in H. destruct H as [H _].
  rewrite Hty in H. discriminate.
Qed.

(** ** [create_index] on loaded fields *)

Lemma occurrences_api (word : string) (line : list string) :
  occurrences word (filter (fun w => w =? "[]") line)
  = if word =? "[]" then occurrences "[]" line else 0.
Proof.
  unfold occurrences. destruct (String.eqb_spec word "[]") as [->|Hw].
  - induction line as [|x line IH]; [reflexivity|]. cbn [filter].
    destruct (String.eqb_spec x "[]") as [->|Hx]; cbn [count_occ].
    + destruct (string_dec "[]" "[]"); [|congruence]. now rewrite IH.
    + destruct (string_dec x "[]"); [congruence|apply IH].
  - induction line as [|x line IH]; [reflexivity|]. cbn [filter].
    destruct (String.eqb_spec x "[]") as [->|Hx]; cbn [count_occ]; [|apply IH].
    destruct (string_dec "[]" word); [congruence|apply IH].
Qed.

Lemma set_mem_In (word : string) (s : StrSet) : set_mem word s = true <-> In word s.
Proof.
  unfold set_mem. rewrite existsb_exists. split.
  - intros (x & Hin & E). apply String.eqb_eq in E. now subst.
  - intros Hin. exists word. split; [assumption|apply String.eqb_refl].
Qed.

Lemma has_posting_count (index : RawIndex) word i :
  wf_index index -> (has_posting index word i = true <-> 1 <= count_of index word i).
Proof.
  intros [_ Hall]. unfold has_posting, count_of, index_get, counter_get.
  unfold RawIndex, Counter in *.
  destruct (dict_get String.eqb index word) as [cnt|] eqn:E; simpl;
    [|split; intros H; [discriminate|exfalso; lia]].
  destruct (dict_get Nat.eqb cnt i) as [n|] eqn:En; simpl;
    [|split; intros H; [discriminate|exfalso; lia]].
  split; [intros _|reflexivity].
  apply (dict_get_In _ string_eqb_eq) in E. rewrite Forall_forall in Hall.
  destruct (Hall _ E) as (_ & _ & Hpos). simpl in Hpos.
  apply (dict_get_In _ nat_eqb_eq) in En. rewrite Forall_forall in Hpos.
  apply (Hpos _ En).
Qed.

Section CreateIndexFacts.
Variable stem : string -> string.

Lemma create_index_inverted (self : IndexCreator) (w w1 : World) m t a :
  load_data self w = (Ok (Ret3 m t a), w1) ->
  create_index stem self w
  = let w2 := mkWorld (files w1) (database w1)
                (stdout w1 ++ ["Adding lines to the index...   Please wait."])%list
                (set_add "new" (stopwords w)) in
    match build stem (stopwords w) m t a with
    | Ok index => save_index self index w2
    | Raise e => (Raise e, w2)
    end.
Proof.
  intros Hload. destruct (load_data_Ret3 _ _ _ _ _ _ Hload) as (Hty & _ & _ & Hsw).
  unfold create_index. rewrite Hty. simpl.
  unfold bind at 1. rewrite Hload. run_world.
  unfold build, accumulate. rewrite Hsw.
  destruct (weight_pass _ _); reflexivity.
Qed.

(** A raw word [new] of a method name is indexed whenever the set that
    the caller passed does not hold it. *)
Lemma new_in_methname_counts (base : StrSet) (line : list string) :
  base <> [] -> set_mem "new" base = false -> In "new" line ->
  1 <= occurrences (replace_synonyms (stem "new")) (field_terms stem (Some base) line).
Proof.
  intros Hne Hmem Hin. destruct base as [|b base]; [congruence|].
  unfold occurrences. apply (count_occ_In string_dec).
  cbn [field_terms]. apply in_flat_map. exists "new". split; [assumption|].
  simpl. unfold piece_terms. rewrite Hmem. simpl. now left.
Qed.
End CreateIndexFacts.

Lemma dict_of_items_get_None {V} (items : list (Z * V)) (k : Z) :
  dict_get Z.eqb (dict_of_items Z.eqb items) k = None <-> ~ In k (map fst items).
Proof.
  unfold dict_of_items.
  assert (H : forall d, dict_get Z.eqb
                (fold_left (fun d kv => dict_set Z.eqb d (fst kv) (snd kv)) items d) k = None
              <-> dict_get Z.eqb d k = None /\ ~ In k (map fst items)).
  { induction items as [|[k0 v0] items IH]; intros d; simpl; [tauto|].
    rewrite IH. simpl. destruct (Z.eq_dec k0 k) as [->|Hne].
    - rewrite (dict_get_set_same _ Z.eqb_eq). split; [intros [H _]; discriminate|tauto].
    - rewrite (dict_get_set_other _ Z.eqb_eq) by assumption. tauto. }
  rewrite H. simpl. tauto.
Qed.

Lemma translate_unknown (vocab : list (string * Z)) (lst : list Z) k i :
  nth_error lst k = Some i -> ~ In i (map snd vocab) ->
  nth_error (translate (invert_vocab vocab) lst) k = Some "UNK".
Proof.
  intros Hk Hout. unfold translate. rewrite nth_error_map, Hk. simpl.
  replace (dict_get Z.eqb (invert_vocab vocab) i) with (@None string); [reflexivity|].
  symmetry. apply dict_of_items_get_None. now rewrite map_map.
Qed.

Lemma translate_docs_unknown (vocab : list (string * Z)) (rows : list (list Z)) d k line i :
  nth_error rows d = Some line -> nth_error line k = Some i -> ~ In i (map snd vocab) ->
  exists words, nth_error (map (translate (invert_vocab vocab)) rows) d = Some words
                /\ nth_error words k = Some "UNK".
Proof.
  intros Hd Hk Hout. exists (translate (invert_vocab vocab) line). split.
  - rewrite nth_error_map, Hd. reflexivity.
  - eapply translate_unknown; eauto.
Qed.

(** * The claims *)

(** C2, as the code has it: an inverted-index build runs exactly three
    accumulation passes in a fixed order on an index that starts empty: the
    method names with the stopword set as the caller passed it, then the
    tokens with that set extended by "new" (the extension happens between
    the two calls), then the API sequences with stopwords disabled. When
    the set that the caller passed is not empty and does not hold "new"
    already, the extension does not suppress method-name terms: a
    method-name word "new" is still counted. In the API pass the count of a
    term for a document grows by the number of occurrences of the literal
    token "[]" in that document's line when the term is "[]", and by
    nothing for any other term. *)
Theorem three_passes_in_fixed_order (stem : string -> string) (self : IndexCreator)
    (w w1 : World) (m t a : Docs) :
  load_data self w = (Ok (Ret3 m t a), w1) ->
  let base := stopwords w in
  let pass1 := add_to_index stem [] m (Some base) in
  let pass2 := add_to_index stem pass1 t (Some (set_add "new" base)) in
  let pass3 := add_to_index stem pass2 a None in
  let w2 := mkWorld (files w1) (database w1)
              (stdout w1 ++ ["Adding lines to the index...   Please wait."])%list
              (set_add "new" base) in
  create_index stem self w
    = match weight_pass (length m) pass3 with
      | Ok index => save_index self (sort_pass index) w2
      | Raise e => (Raise e, w2)
      end
  /\ (forall word i,
        count_of pass1 word i = occurrences word (field_terms stem (Some base) (nth i m [])))
  /\ (base <> [] -> set_mem "new" base = false ->
      forall i, In "new" (nth i m []) ->
        has_posting pass3 (replace_synonyms (stem "new")) i = true)
  /\ (forall word i,
        count_of pass2 word i
        = count_of pass1 word i
          + occurrences word (field_terms stem (Some (set_add "new" base)) (nth i t [])))
  /\ (forall index lines word i,
        count_of (add_to_index stem index lines None) word i
        = count_of index word i
          + (if word =? "[]" then occurrences "[]" (nth i lines []) else 0)).
Proof.
  intros Hload base pass1 pass2 pass3 w2. repeat split.
  - rewrite (create_index_inverted stem self w w1 m t a Hload).
    unfold build, accumulate. fold base pass1 pass2 pass3. cbv zeta. fold w2.
    destruct (weight_pass (length m) pass3); reflexivity.
  - intros word i. unfold pass1. rewrite count_of_add_to_index. reflexivity.
  - intros Hne Hmem i Hin.
    apply has_posting_count.
    + unfold pass3, pass2, pass1. auto using wf_add_to_index, wf_nil.
    + unfold pass3, pass2, pass1. rewrite !count_of_add_to_index.
      pose proof (new_in_methname_counts stem base (nth i m []) Hne Hmem Hin). lia.
  - intros word i. unfold pass2. apply count_of_add_to_index.
  - intros index lines word i. rewrite count_of_add_to_index.
    cbn [field_terms]. now rewrite occurrences_api.
Qed.

Lemma three_passes_in_fixed_order_witness :
  create_index plain_stem (demo_creator "inverted_index") demo_world
  = match weight_pass 2
            (add_to_index plain_stem
               (add_to_index plain_stem
                  (add_to_index plain_stem [] [["store"; "new"]; ["get_file"; "UNK"]]
                     (Some ["the"; "of"]))
                  [["new"; "store"; "store"]; ["a"; "UNK"]] (Some ["the"; "of"; "new"]))
               [["[]"; "String"; "[]"]; ["UNK"]] None) with
    | Ok index =>
        save_index (demo_creator "inverted_index") (sort_pass index)
          (mkWorld demo_files []
             ["Translating methname, token and api sequence word indices back to natural language...   Please wait.";
              "Adding lines to the index...   Please wait."]
             ["the"; "of"; "new"])
    | Raise e =>
        (Raise e,
         mkWorld demo_files []
           ["Translating methname, token and api sequence word indices back to natural language...   Please wait.";
            "Adding lines to the index...   Please wait."]
           ["the"; "of"; "new"])
    end
  /\ has_posting
       (add_to_index plain_stem
          (add_to_index plain_stem
             (add_to_index plain_stem [] [["store"; "new"]; ["get_file"; "UNK"]]
                (Some ["the"; "of"]))
             [["new"; "store"; "store"]; ["a"; "UNK"]] (Some ["the"; "of"; "new"]))
          [["[]"; "String"; "[]"]; ["UNK"]] None)
       (replace_synonyms (plain_stem "new")) 0 = true.
Proof.
  pose proof (three_passes_in_fixed_order plain_stem (demo_creator "inverted_index")
                demo_world
                (mkWorld demo_files []
                   ["Translating methname, token and api sequence word indices back to natural language...   Please wait."]
                   ["the"; "of"])
                [["store"; "new"]; ["get_file"; "UNK"]]
                [["new"; "store"; "store"]; ["a"; "UNK"]]
                [["[]"; "String"; "[]"]; ["UNK"]]
                eq_refl) as H.
  cbv zeta in H. destruct H as (Hrun & _ & Hnew & _).
  split; [exact Hrun|].
  apply (Hnew ltac:(discriminate) eq_refl 0). simpl. tauto.
Defined.

(** C2, the claim as stated fails for some builds: the injection changes the
    caller's set in place, so after one build the set holds "new", and a
    build that is handed such a set drops the method-name word "new" that
    the first build counted; and a build that is handed an empty set runs
    the method-name pass in the branch of lines 178-188, which yields no
    method-name term at all. *)
Lemma injected_stopword_suppresses_method_name_term :
  stopwords (snd (create_index plain_stem (demo_creator "inverted_index") demo_world))
    = ["the"; "of"; "new"]
  /\ In "new" (nth 0 [["store"; "new"]; ["get_file"; "UNK"]] [])
  /\ replace_synonyms (plain_stem "new") = "creat"
  /\ has_posting (accumulate plain_stem ["the"; "of"]
                    [["store"; "new"]; ["get_file"; "UNK"]]
                    [["new"; "store"; "store"]; ["a"; "UNK"]]
                    [["[]"; "String"; "[]"]; ["UNK"]]) "creat" 0 = true
  /\ has_posting (accumulate plain_stem ["the"; "of"; "new"]
                    [["store"; "new"]; ["get_file"; "UNK"]]
                    [["new"; "store"; "store"]; ["a"; "UNK"]]
                    [["[]"; "String"; "[]"]; ["UNK"]]) "creat" 0 = false
  /\ add_to_index plain_stem [] [["store"; "new"]; ["get_file"; "UNK"]] (Some []) = [].
Proof.
  split.
  - rewrite (create_index_inverted plain_stem (demo_creator "inverted_index") demo_world
               (mkWorld demo_files []
                  ["Translating methname, token and api sequence word indices back to natural language...   Please wait."]
                  ["the"; "of"])
               [["store"; "new"]; ["get_file"; "UNK"]]
               [["new"; "store"; "store"]; ["a"; "UNK"]]
               [["[]"; "String"; "[]"]; ["UNK"]] eq_refl).
    cbv zeta. rewrite build_ok by (simpl; lia). reflexivity.
  - repeat split; try (vm_compute; reflexivity). simpl. tauto.
Qed.

(** C4: in a stopword-enabled pass a raw underscore-delimited piece of
    length 1, of length 19 or more, or held by the active stopword set
    yields no term and leaves the index as it is; the membership test reads
    the raw piece, and stemming followed by the synonym rewrite is applied
    exactly to the pieces that pass both gates (whatever their stem is);
    the counts that such a pass adds come from these surviving pieces only. *)
Theorem filter_gates_before_stemming (stem : string -> string) (sw : StrSet) :
  (forall i index piece,
      String.length piece = 1 \/ 19 <= String.length piece \/ In piece sw ->
      piece_terms stem sw piece = [] /\ add_piece stem sw i index piece = index)
  /\ (forall i index piece,
      2 <= String.length piece <= 18 -> ~ In piece sw ->
      piece_terms stem sw piece = [replace_synonyms (stem piece)]
      /\ add_piece stem sw i index piece = bump index (replace_synonyms (stem piece)) i)
  /\ (sw <> [] -> forall index lines word i,
      count_of (add_to_index stem index lines (Some sw)) word i
      = count_of index word i
        + occurrences word
            (flat_map (fun raw_word => flat_map (piece_terms stem sw) (PyStr.split "_" raw_word))
                      (nth i lines []))).
Proof.
  repeat split.
  - unfold piece_terms. destruct H as [H|[H|H]].
    + rewrite H. reflexivity.
    + replace (18 <? String.length piece)%nat with true
        by (symmetry; apply Nat.ltb_lt; lia).
      now rewrite orb_true_r.
    + apply set_mem_In in H. rewrite H. now rewrite orb_true_r.
  - unfold add_piece. destruct H as [H|[H|H]].
    + rewrite H. reflexivity.
    + replace (18 <? String.length piece)%nat with true
        by (symmetry; apply Nat.ltb_lt; lia).
      now rewrite orb_true_r.
    + apply set_mem_In in H. rewrite H. now rewrite orb_true_r.
  - unfold piece_terms.
    replace (String.length piece <? 2)%nat with false by (symmetry; apply Nat.ltb_ge; lia).
    replace (18 <? String.length piece)%nat with false by (symmetry; apply Nat.ltb_ge; lia).
    destruct (set_mem piece sw) eqn:E; [|reflexivity].
    apply set_mem_In in E. contradiction.
  - unfold add_piece.
    replace (String.length piece <? 2)%nat with false by (symmetry; apply Nat.ltb_ge; lia).
    replace (18 <? String.length piece)%nat with false by (symmetry; apply Nat.ltb_ge; lia).
    destruct (set_mem piece sw) eqn:E; [|reflexivity].
    apply set_mem_In in E. contradiction.
  - intros Hne index lines word i. rewrite count_of_add_to_index.
    destruct sw as [|s sw]; [congruence|reflexivity].
Qed.

Lemma filter_gates_before_stemming_witness :
  piece_terms plain_stem ["the"; "of"] "internationalization" = []
  /\ add_piece plain_stem ["the"; "of"] 0 [] "internationalization" = [].
Proof.
  apply (proj1 (filter_gates_before_stemming plain_stem ["the"; "of"]) 0 []
           "internationalization").
  right. left. simpl. lia.
Defined.



(** C8: with the index type "word_indices", [create_index] only prints a
    line (no field is loaded, nothing is accumulated or stored) and
    [save_index] stores nothing; [load_index], however, never returns: it
    unpacks the 2-tuple of line 84 into three names at line 137 and raises,
    whatever the store holds. *)
Theorem word_indices_passthrough_raises (stem : string -> string)
    (self : IndexCreator) (w : World) :
  index_type self = "word_indices" ->
  create_index stem self w
    = (Ok tt, mkWorld (files w) (database w) (stdout w ++ ["Nothing to be done."])%list
                (stopwords w))
  /\ (forall index, save_index self index w = (Ok tt, w))
  /\ (forall v w', load_index self w <> (Ok v, w'))
  /\ (forall rows_m rows_t rows_a,
        dict_get String.eqb (files w) (dataset_path self ++ use_methname self)
          = Some (Hdf5 rows_m) ->
        dict_get String.eqb (files w) (dataset_path self ++ use_tokens self)
          = Some (Hdf5 rows_t) ->
        dict_get String.eqb (files w) (dataset_path self ++ use_apiseq self)
          = Some (Hdf5 rows_a) ->
        load_data self w = (Ok (Ret2 rows_m rows_t), w)
        /\ load_index self w
           = (Raise (ValueError "not enough values to unpack (expected 3, got 2)"), w)).
Proof.
  intros Hty. split; [|split; [|split]].
  - unfold create_index. rewrite Hty. reflexivity.
  - intros index. unfold save_index. rewrite Hty. reflexivity.
  - intros v w' H. unfold load_index in H. rewrite Hty in H. simpl in H.
    unfold bind at 1 in H.
    destruct (load_data self w) as [[value|e] w1] eqn:E; [|discriminate].
    destruct value as [mi ti|m t a|].
    + run_world. discriminate.
    + exfalso. exact (load_data_word_indices self w Hty _ _ _ _ E).
    + run_world. discriminate.
  - intros rows_m rows_t rows_a Hm Ht Ha.
    assert (Hload : load_data self w = (Ok (Ret2 rows_m rows_t), w)).
    { unfold load_data. run_world.
      repeat (first [rewrite Hm | rewrite Ht | rewrite Ha]; simpl).
      rewrite Hty. reflexivity. }
    split; [exact Hload|].
    unfold load_index. rewrite Hty. simpl. unfold bind at 1. rewrite Hload.
    reflexivity.
Qed.

Lemma word_indices_passthrough_raises_witness :
  load_index (demo_creator "word_indices") demo_world
  = (Raise (ValueError "not enough values to unpack (expected 3, got 2)"), demo_world).
Proof.
  refine (proj2 (proj2 (proj2 (proj2
            (word_indices_passthrough_raises plain_stem (demo_creator "word_indices")
               demo_world eq_refl)))
            [[2; 3]; [4; 99]]%Z [[2; 3; 3]; [4; 77]]%Z [[2; 3; 2]; [55]]%Z
            eq_refl eq_refl eq_refl)).
Defined.

(** C9, as the code has it: for every index type other than "word_indices",
    if one of the three field files is absent then [create_index] raises an
    [AssertionError] before anything else happens: the world is exactly as
    it was (nothing printed, no file written, no database call, the
    stopword set untouched). The message is the fixed text of the first
    failing assertion, which names the missing field and not its path. *)
Theorem missing_field_aborts_build (stem : string -> string)
    (self : IndexCreator) (w : World) :
  let present path := match dict_get String.eqb (files w) path with
                      | Some _ => true | None => false end in
  let pm := present (dataset_path self ++ use_methname self) in
  let pt := present (dataset_path self ++ use_tokens self) in
  let pa := present (dataset_path self ++ use_apiseq self) in
  index_type self <> "word_indices" ->
  pm && pt && pa = false ->
  create_index stem self w
  = (Raise (AssertionError
       (if negb pm then "Method names of real data not found."
        else if negb pt then "Tokens of real data not found."
        else "API sequences of real data not found.")), w).
Proof.
  intros present pm pt pa Hty Hmiss.
  unfold create_index. apply String.eqb_neq in Hty. rewrite Hty.
  unfold bind at 1. now rewrite (load_data_missing self w Hmiss).
Qed.

Lemma missing_field_aborts_build_witness :
  create_index plain_stem (demo_creator "inverted_index") demo_world_missing
  = (Raise (AssertionError "Method names of real data not found."), demo_world_missing).
Proof.
  apply (missing_field_aborts_build plain_stem (demo_creator "inverted_index")
           demo_world_missing).
  - discriminate.
  - reflexivity.
Defined.

(** C9, the claim as stated fails: with the method-name file absent the
    inverted-index build raises a message that does not contain the missing
    path, and the "word_indices" build does not fail at all. *)
Lemma missing_path_is_not_named :
  create_index plain_stem (demo_creator "inverted_index") demo_world_missing
    = (Raise (AssertionError "Method names of real data not found."), demo_world_missing)
  /\ dict_get String.eqb (files demo_world_missing) "data/github/use.methname.h5" = None
  /\ PyStr.contains "data/github/use.methname.h5" "Method names of real data not found."
     = false
  /\ fst (create_index plain_stem (demo_creator "word_indices") demo_world_missing) = Ok tt.
Proof. repeat split; vm_compute; reflexivity. Qed.

(** C10: when the inverted-index build translates the integer-encoded
    fields, loading succeeds whatever integers the three files hold, and in
    each of the three fields an integer that no word of the field's
    vocabulary maps to is rendered as the token "UNK"; that token yields no
    term in the API pass, and in a stopword-enabled pass it yields what the
    normalisation of the single piece "UNK" yields. *)
Theorem unknown_ids_become_UNK (stem : string -> string) (self : IndexCreator)
    (w : World) (rows_m rows_t rows_a : list (list Z)) :
  index_type self = "inverted_index" ->
  dict_get String.eqb (files w) (dataset_path self ++ use_methname self) = Some (Hdf5 rows_m) ->
  dict_get String.eqb (files w) (dataset_path self ++ use_tokens self) = Some (Hdf5 rows_t) ->
  dict_get String.eqb (files w) (dataset_path self ++ use_apiseq self) = Some (Hdf5 rows_a) ->
  exists m t a w1,
    load_data self w = (Ok (Ret3 m t a), w1)
    /\ (forall d k line i,
          nth_error rows_m d = Some line -> nth_error line k = Some i ->
          ~ In i (map snd (methname_vocab self)) ->
          exists words, nth_error m d = Some words /\ nth_error words k = Some "UNK")
    /\ (forall d k line i,
          nth_error rows_t d = Some line -> nth_error line k = Some i ->
          ~ In i (map snd (token_vocab self)) ->
          exists words, nth_error t d = Some words /\ nth_error words k = Some "UNK")
    /\ (forall d k line i,
          nth_error rows_a d = Some line -> nth_error line k = Some i ->
          ~ In i (map snd (apiseq_vocab self)) ->
          exists words, nth_error a d = Some words /\ nth_error words k = Some "UNK")
    /\ field_terms stem None ["UNK"] = []
    /\ (forall s sw, field_terms stem (Some (s :: sw)) ["UNK"]
                     = piece_terms stem (s :: sw) "UNK").
Proof.
  intros Hty Hm Ht Ha.
  eexists _, _, _, _. split; [apply (load_data_inverted self w _ _ _ Hty Hm Ht Ha)|].
  repeat split.
  - intros d k line i. apply translate_docs_unknown.
  - intros d k line i. apply translate_docs_unknown.
  - intros d k line i. apply translate_docs_unknown.
  - intros s sw. simpl. now rewrite !app_nil_r.
Qed.

Lemma unknown_ids_become_UNK_witness :
  exists m t a w1,
    load_data (demo_creator "inverted_index") demo_world = (Ok (Ret3 m t a), w1)
    /\ nth_error m 1 = Some ["get_file"; "UNK"].
Proof.
  destruct (unknown_ids_become_UNK plain_stem (demo_creator "inverted_index") demo_world
              [[2; 3]; [4; 99]]%Z [[2; 3; 3]; [4; 77]]%Z [[2; 3; 2]; [55]]%Z
              eq_refl eq_refl eq_refl eq_refl)
    as (m & t & a & w1 & Hload & _).
  exists m, t, a, w1. split; [exact Hload|].
  vm_compute in Hload. injection Hload as <- _ _ _. reflexivity.
Defined.

Lemma index_get_map_values {V W} (f : V -> W) (index : list (string * V)) word :
  index_get (map (fun e => (fst e, f (snd e))) index) word
  = option_map f (index_get index word).
Proof.
  unfold index_get. induction index as [|[k v] index IH]; simpl; [reflexivity|].
  destruct (k =? word); [reflexivity|exact IH].
Qed.

Lemma wf_index_get (index : RawIndex) word cnt :
  wf_index index -> index_get index word = Some cnt -> wf_counter cnt.
Proof.
  intros [_ Hall] H. apply (dict_get_In _ string_eqb_eq) in H.
  rewrite Forall_forall in Hall. exact (Hall _ H).
Qed.

Lemma finished_keys_NoDup (N : nat) (cnt : Counter) :
  wf_counter cnt -> NoDup (map fst (weighted N cnt)).
Proof. intros (_ & H & _). now rewrite weighted_keys. Qed.

Lemma finished_perm (N : nat) (cnt : Counter) :
  wf_counter cnt -> Permutation (weighted N cnt) (finished N cnt).
Proof. intros H. apply sort_counter_perm, finished_keys_NoDup, H. Qed.

Lemma finished_ranked (N : nat) (cnt : Counter) : wf_counter cnt -> ranked (finished N cnt).
Proof. intros H. apply sort_counter_ranked, finished_keys_NoDup, H. Qed.

(** The weight that the finished postings hold for a document. *)
Lemma finished_get (N : nat) (cnt : Counter) i tf :
  wf_counter cnt -> counter_get cnt i = Some tf ->
  counter_get (finished N cnt) i = Some (tf_idf N (length cnt) tf).
Proof.
  intros Hwf Hget. unfold counter_get in *.
  apply (In_dict_get _ nat_eqb_eq).
  - eapply Permutation_NoDup; [|apply (finished_keys_NoDup N cnt Hwf)].
    apply Permutation_map, finished_perm, Hwf.
  - eapply Permutation_in; [apply finished_perm, Hwf|].
    apply (dict_get_In _ nat_eqb_eq) in Hget. unfold weighted.
    change (i, tf_idf N (length cnt) tf)
      with ((fun p : nat * nat => (fst p, tf_idf N (length cnt) (snd p))) (i, tf)).
    now apply in_map.
Qed.

(** C3: in the finished index the postings of every term are the weighted
    postings of lines 228-232 (every document of the term once, with its
    weight), stored by weight descending, ties by ascending document id:
    along the stored order the weights never increase, and two neighbours
    of equal weight have strictly increasing document ids. The build does
    produce a finished index whenever there is at least one method name. *)
Theorem postings_sorted_by_weight_then_id (stem : string -> string) (sw : StrSet)
    (m t a : Docs) :
  (1 <= length m -> exists fin, build stem sw m t a = Ok fin)
  /\ (forall fin, build stem sw m t a = Ok fin ->
      (forall word cnt,
          index_get (accumulate stem sw m t a) word = Some cnt ->
          exists wcnt,
            index_get fin word = Some wcnt
            /\ Permutation (weighted (length m) cnt) wcnt
            /\ ranked wcnt)
      /\ (forall word wcnt, In (word, wcnt) fin ->
            ranked wcnt
            /\ exists cnt,
                 In (word, cnt) (accumulate stem sw m t a)
                 /\ Permutation (weighted (length m) cnt) wcnt)).
Proof.
  pose proof (wf_accumulate stem sw m t a) as Hwf.
  split.
  - intros HN. eexists. apply build_ok, HN.
  - intros fin Hfin.
    rewrite (build_Ok_inv stem sw m t a fin Hfin). split.
    + intros word cnt Hget.
      pose proof (wf_index_get _ _ _ Hwf Hget) as Hc.
      exists (finished (length m) cnt). split; [|split].
      * rewrite index_get_map_values.
        transitivity (option_map (finished (length m)) (Some cnt));
          [f_equal; exact Hget|reflexivity].
      * apply finished_perm, Hc.
      * apply finished_ranked, Hc.
    + intros word wcnt Hin.
      apply in_map_iff in Hin. destruct Hin as ([w0 cnt] & E & Hin).
      injection E as <- <-. simpl.
      destruct Hwf as [_ Hall]. rewrite Forall_forall in Hall.
      pose proof (Hall _ Hin) as Hc. simpl in Hc.
      split; [apply finished_ranked, Hc|].
      exists cnt. split; [exact Hin|apply finished_perm, Hc].
Qed.

(** ** The worked example: ten documents, counts 1 and 3 *)

Lemma idf_10_2 : idf 10 2 = log10 5.
Proof. unfold idf. f_equal. simpl. field. Qed.

Lemma example_weights :
  tf_idf 10 2 1 = (log10 5 * log10 2)%R /\ tf_idf 10 2 3 = (log10 5 * log10 4)%R.
Proof.
  unfold tf_idf. rewrite idf_10_2. split; f_equal; f_equal; simpl; ring.
Qed.

Lemma example_weights_lt : (log10 5 * log10 2 < log10 5 * log10 4)%R.
Proof.
  apply Rmult_lt_compat_l.
  - apply log10_pos. lra.
  - apply log10_increasing; lra.
Qed.

Lemma sorted_pair_swap (docA docB : nat) (wA wB : R) :
  (wA < wB)%R ->
  sorted sort_key tuple_ltb [(docA, wA); (docB, wB)] = [(docB, wB); (docA, wA)].
Proof.
  intros Hlt. unfold sorted, sort_key, tuple_ltb. simpl.
  destruct (Req_dec_T (- wB) (- wA)); [lra|].
  destruct (Rlt_dec (- wB) (- wA)); [reflexivity|lra].
Qed.

Lemma sorted_pair_keep (docA docB : nat) (wA wB : R) :
  (wA < wB)%R ->
  sorted sort_key tuple_ltb [(docB, wB); (docA, wA)] = [(docB, wB); (docA, wA)].
Proof.
  intros Hlt. unfold sorted, sort_key, tuple_ltb. simpl.
  destruct (Req_dec_T (- wA) (- wB)); [lra|].
  destruct (Rlt_dec (- wA) (- wB)); [lra|reflexivity].
Qed.

Lemma finished_example (docA docB : nat) :
  docA <> docB ->
  finished 10 [(docA, 1); (docB, 3)]
    = [(docB, (log10 5 * log10 4)%R); (docA, (log10 5 * log10 2)%R)]
  /\ finished 10 [(docB, 3); (docA, 1)]
    = [(docB, (log10 5 * log10 4)%R); (docA, (log10 5 * log10 2)%R)].
Proof.
  intros Hne. destruct example_weights as [E1 E3].
  assert (Hnd : NoDup [docA; docB]).
  { constructor; [simpl; intuition|]. constructor; [simpl; tauto|constructor]. }
  assert (Hnd' : NoDup [docB; docA]).
  { constructor; [simpl; intuition|]. constructor; [simpl; tauto|constructor]. }
  unfold finished, weighted. cbn [map fst snd length].
  rewrite E1, E3. split.
  - rewrite sort_counter_sorted by exact Hnd.
    apply sorted_pair_swap, example_weights_lt.
  - rewrite sort_counter_sorted by exact Hnd'.
    apply sorted_pair_keep, example_weights_lt.
Qed.

Lemma postings_sorted_by_weight_then_id_witness :
  exists fin,
    build plain_stem ["the"] ten_methnames ten_empty ten_empty = Ok fin
    /\ index_get fin "store" = Some [(1, tf_idf 10 2 3); (0, tf_idf 10 2 1)].
Proof.
  destruct (postings_sorted_by_weight_then_id plain_stem ["the"]
              ten_methnames ten_empty ten_empty) as [Hex Hsorted].
  destruct Hex as [fin Hfin]; [simpl; lia|].
  exists fin. split; [exact Hfin|].
  destruct (Hsorted fin Hfin) as [Hterms _].
  destruct (Hterms "store" [(0, 1); (1, 3)]) as (wcnt & Hget & Hperm & Hrank).
  - vm_compute. reflexivity.
  - rewrite Hget. f_equal.
    change (weighted (length ten_methnames) [(0, 1); (1, 3)])
      with [(0, tf_idf 10 2 1); (1, tf_idf 10 2 3)] in Hperm.
    apply Permutation_length_2_inv in Hperm. destruct Hperm as [E|E]; [|exact E].
    exfalso. subst wcnt.
    destruct (Hrank 0 (0, tf_idf 10 2 1) (1, tf_idf 10 2 3) eq_refl eq_refl) as [Hle _].
    simpl in Hle. destruct example_weights as [E1 E3]. rewrite E1, E3 in Hle.
    pose proof example_weights_lt. lra.
Defined.

(** C1: whenever there is at least one method name the build finishes, and
    for every term of the index each raw count tf of a document is replaced
    by idf * log10(1 + tf) with idf = log10(N / df), where N is the number
    of method names and df the number of postings of the term; the finished
    index has no other terms. In particular, with N = 10 and a term whose
    postings are two documents with the raw counts 1 and 3, the stored
    postings are the count-3 document with weight log10(5) * log10(4)
    followed by the count-1 document with weight log10(5) * log10(2). *)
Theorem weighting_replaces_counts (stem : string -> string) (sw : StrSet) (m t a : Docs) :
  1 <= length m ->
  exists fin,
    build stem sw m t a = Ok fin
    /\ (forall word cnt,
          index_get (accumulate stem sw m t a) word = Some cnt ->
          exists wcnt,
            index_get fin word = Some wcnt
            /\ forall i tf, counter_get cnt i = Some tf ->
                 counter_get wcnt i
                 = Some (log10 (INR (length m) / INR (length cnt))
                         * log10 (INR (1 + tf)))%R)
    /\ (forall word, index_get fin word <> None ->
                     index_get (accumulate stem sw m t a) word <> None)
    /\ (length m = 10 ->
        forall word docA docB, docA <> docB ->
          index_get (accumulate stem sw m t a) word = Some [(docA, 1); (docB, 3)]
          \/ index_get (accumulate stem sw m t a) word = Some [(docB, 3); (docA, 1)] ->
          idf 10 2 = log10 5
          /\ index_get fin word
             = Some [(docB, (log10 5 * log10 4)%R); (docA, (log10 5 * log10 2)%R)]).
Proof.
  intros HN. eexists. split; [apply build_ok, HN|].
  pose proof (wf_accumulate stem sw m t a) as Hwf.
  split; [|split].
  - intros word cnt Hget. exists (finished (length m) cnt). split.
    + rewrite index_get_map_values, Hget. reflexivity.
    + intros i tf Htf. apply finished_get; [|exact Htf].
      exact (wf_index_get _ _ _ Hwf Hget).
  - intros word Hfin Hraw. apply Hfin. rewrite index_get_map_values.
    transitivity (option_map (finished (length m)) (@None Counter));
      [f_equal; exact Hraw|reflexivity].
  - intros H10 word docA docB Hne Hget. split; [apply idf_10_2|].
    rewrite index_get_map_values, H10.
    destruct (finished_example docA docB Hne) as [E1 E2].
    destruct Hget as [Hget|Hget]; rewrite Hget; cbn [option_map]; f_equal; assumption.
Qed.

Lemma weighting_replaces_counts_witness :
  exists fin,
    build plain_stem ["the"] ten_methnames ten_empty ten_empty = Ok fin
    /\ index_get fin "store"
       = Some [(1, (log10 5 * log10 4)%R); (0, (log10 5 * log10 2)%R)].
Proof.
  destruct (weighting_replaces_counts plain_stem ["the"] ten_methnames ten_empty ten_empty)
    as (fin & Hbuild & _ & _ & Hex).
  - simpl. lia.
  - exists fin. split; [exact Hbuild|].
    apply (Hex eq_refl "store" 0 1).
    + discriminate.
    + left. vm_compute. reflexivity.
Defined.

(** ** Document frequency *)

Lemma has_posting_keys (index : RawIndex) word cnt i :
  index_get index word = Some cnt ->
  (has_posting index word i = true <-> In i (map fst cnt)).
Proof.
  intros Hget. unfold has_posting, index_get, counter_get, RawIndex, Counter in *.
  rewrite Hget.
  destruct (dict_get Nat.eqb cnt i) as [n|] eqn:E.
  - split; [intros _|reflexivity].
    apply (dict_get_In _ nat_eqb_eq) in E.
    change i with (fst (i, n)). now apply in_map.
  - apply (dict_get_None _ nat_eqb_eq) in E. split; [discriminate|contradiction].
Qed.

Lemma ids_below_get (n : nat) (index : RawIndex) word cnt :
  ids_below n index -> index_get index word = Some cnt ->
  forall i, In i (map fst cnt) -> i < n.
Proof.
  intros Hall Hget i Hin. apply (dict_get_In _ string_eqb_eq) in Hget.
  unfold ids_below in Hall. rewrite Forall_forall in Hall.
  specialize (Hall _ Hget). simpl in Hall. rewrite Forall_forall in Hall.
  apply in_map_iff in Hin. destruct Hin as (p & <- & Hp). now apply Hall.
Qed.

Lemma keys_below_length (N : nat) (keys : list nat) :
  NoDup keys -> (forall i, In i keys -> i < N) -> length keys <= N.
Proof.
  intros Hnd Hlt. rewrite <- (length_seq N 0).
  apply NoDup_incl_length; [assumption|].
  intros i Hi. apply in_seq. specialize (Hlt i Hi). lia.
Qed.

Lemma keys_full_iff (N : nat) (keys : list nat) :
  NoDup keys -> (forall i, In i keys -> i < N) ->
  (length keys = N <-> forall i, i < N -> In i keys).
Proof.
  intros Hnd Hlt. split.
  - intros Hlen i Hi.
    assert (Hincl : incl (seq 0 N) keys).
    { apply NoDup_length_incl; [assumption|rewrite length_seq; lia|].
      intros j Hj. apply in_seq. specialize (Hlt j Hj). lia. }
    apply Hincl, in_seq. lia.
  - intros Hall. apply Nat.le_antisymm; [now apply keys_below_length|].
    rewrite <- (length_seq N 0) at 1.
    apply NoDup_incl_length; [apply seq_NoDup|].
    intros i Hi. apply in_seq in Hi. apply Hall. lia.
Qed.

Lemma build_aligned (stem : string -> string) (sw : StrSet) (m t a : Docs) :
  length t <= length m -> length a <= length m ->
  build stem sw m t a
  = Ok (map (fun e => (fst e, finished (length m) (snd e))) (accumulate stem sw m t a)).
Proof.
  intros Ht Ha. destruct m as [|l m]; [|apply build_ok; simpl; lia].
  destruct t; [|simpl in Ht; lia]. destruct a; [|simpl in Ha; lia].
  unfold build, accumulate. rewrite !add_to_index_bump_all. reflexivity.
Qed.

(** C6: when the token field and the API field have at most N documents
    (N the number of method names), the build finishes and for every
    indexed term 1 <= df <= N and idf = log10(N / df) >= 0, with idf = 0
    exactly when the term has a posting for every one of the N documents;
    the finished index stores for every posting of the term the weight
    idf * log10(1 + tf), with this idf; a term with a posting for every
    document keeps all its N postings, each with weight 0. For a fixed
    N >= 1, idf strictly decreases as df grows. *)
Theorem idf_bounds_and_universal_terms (stem : string -> string) (sw : StrSet)
    (m t a : Docs) :
  length t <= length m -> length a <= length m ->
  exists fin,
    build stem sw m t a = Ok fin
    /\ (forall word cnt,
          index_get (accumulate stem sw m t a) word = Some cnt ->
          1 <= length cnt <= length m
          /\ (0 <= idf (length m) (length cnt))%R
          /\ (idf (length m) (length cnt) = 0%R <->
              forall i, i < length m ->
                has_posting (accumulate stem sw m t a) word i = true)
          /\ (exists wcnt,
                index_get fin word = Some wcnt
                /\ length wcnt = length cnt
                /\ forall i tf, counter_get cnt i = Some tf ->
                     counter_get wcnt i
                     = Some (idf (length m) (length cnt) * log10 (INR (1 + tf)))%R)
          /\ ((forall i, i < length m ->
                 has_posting (accumulate stem sw m t a) word i = true) ->
              exists wcnt,
                index_get fin word = Some wcnt
                /\ Permutation (map fst wcnt) (map fst cnt)
                /\ length wcnt = length m
                /\ (forall i, i < length m -> counter_get wcnt i = Some 0%R)))
    /\ (forall df1 df2, 1 <= length m -> 1 <= df1 -> df1 < df2 ->
          (idf (length m) df2 < idf (length m) df1)%R).
Proof.
  intros Ht Ha. eexists. split; [apply build_aligned; assumption|].
  split; [|intros; now apply idf_decreasing].
  intros word cnt Hget.
  pose proof (wf_index_get _ _ _ (wf_accumulate stem sw m t a) Hget) as Hwf.
  pose proof (ids_below_get _ _ _ _ (ids_below_accumulate stem sw m t a Ht Ha) Hget)
    as Hbelow.
  assert (Hfin : index_get
                   (map (fun e => (fst e, finished (length m) (snd e)))
                      (accumulate stem sw m t a)) word
                 = Some (finished (length m) cnt)).
  { rewrite index_get_map_values.
    transitivity (option_map (finished (length m)) (Some cnt));
      [f_equal; exact Hget|reflexivity]. }
  assert (Hlen : length (finished (length m) cnt) = length cnt).
  { rewrite <- (Permutation_length (finished_perm (length m) cnt Hwf)).
    unfold weighted. now rewrite length_map. }
  destruct Hwf as (Hne & Hnd & Hpos).
  assert (Hwf : wf_counter cnt) by (repeat split; assumption).
  assert (Hdf1 : 1 <= length cnt) by (destruct cnt; [congruence|simpl; lia]).
  assert (HdfN : length cnt <= length m).
  { rewrite <- (length_map fst cnt). now apply keys_below_length. }
  assert (Hfull : length cnt = length m <->
                  forall i, i < length m ->
                    has_posting (accumulate stem sw m t a) word i = true).
  { rewrite <- (length_map fst cnt), (keys_full_iff _ _ Hnd Hbelow).
    split; intros H i Hi; apply (has_posting_keys _ _ _ i Hget); auto. }
  split; [lia|]. split; [now apply idf_nonneg|]. split; [|split].
  - rewrite idf_zero_iff by lia. exact Hfull.
  - exists (finished (length m) cnt). split; [exact Hfin|]. split; [exact Hlen|].
    intros i tf Htf. exact (finished_get _ _ _ _ Hwf Htf).
  - intros Hall. apply Hfull in Hall.
    exists (finished (length m) cnt). split; [exact Hfin|]. split; [|split].
    + rewrite <- (weighted_keys (length m) cnt).
      apply Permutation_map. symmetry. apply finished_perm, Hwf.
    + now rewrite Hlen.
    + intros i Hi.
      assert (Hin : In i (map fst cnt)).
      { apply (has_posting_keys _ _ _ i Hget). apply Hfull; assumption. }
      destruct (counter_get cnt i) as [tf|] eqn:E.
      * rewrite (finished_get _ _ _ _ Hwf E). f_equal.
        unfold tf_idf. rewrite Hall, idf_same by lia. apply Rmult_0_l.
      * apply (dict_get_None _ nat_eqb_eq) in E. contradiction.
Qed.

Lemma idf_bounds_and_universal_terms_witness :
  exists fin,
    build plain_stem ["the"] three_methnames three_tokens three_apiseqs = Ok fin
    /\ (exists wcnt, index_get fin "get" = Some wcnt
                     /\ length wcnt = 3
                     /\ counter_get wcnt 2 = Some 0%R)
    /\ (exists wcnt, index_get fin "open" = Some wcnt
                     /\ length wcnt = 2
                     /\ counter_get wcnt 2 = Some (idf 3 2 * log10 (INR 2))%R
                     /\ (0 < idf 3 2 * log10 (INR 2))%R).
Proof.
  destruct (idf_bounds_and_universal_terms plain_stem ["the"]
              three_methnames three_tokens three_apiseqs)
    as (fin & Hbuild & Hterms & Hdecr).
  - simpl. lia.
  - simpl. lia.
  - exists fin. split; [exact Hbuild|]. split.
    + destruct (Hterms "get" [(0, 2); (1, 1); (2, 1)]) as (_ & _ & _ & _ & Hall).
      * vm_compute. reflexivity.
      * destruct Hall as (wcnt & Hget & _ & Hlen & Hzero).
        -- intros i Hi. simpl in Hi.
           destruct i as [|[|[|i]]]; [vm_compute; reflexivity ..|lia].
        -- exists wcnt. split; [exact Hget|]. split; [exact Hlen|].
           apply Hzero. simpl. lia.
    + destruct (Hterms "open" [(0, 1); (2, 1)]) as (_ & _ & _ & Hw & _).
      * vm_compute. reflexivity.
      * destruct Hw as (wcnt & Hget & Hlen & Hweights).
        exists wcnt. split; [exact Hget|]. split; [exact Hlen|].
        split; [exact (Hweights 2 1 eq_refl)|].
        apply Rmult_lt_0_compat.
        -- rewrite <- (idf_same 3) by lia. apply (Hdecr 2 3); simpl; lia.
        -- apply log10_pos. simpl. lra.
Defined.

(** ** Whole-word rules of the synonym table *)

Lemma prefix_nonempty_empty (s : string) : prefix (s ++ " ") EmptyString = false.
Proof. destruct s; reflexivity. Qed.

Lemma space_free_cons (c : ascii) (w : string) :
  space_free (String c w) = true -> c <> " "%char /\ space_free w = true.
Proof.
  simpl. intros H. apply andb_prop in H. destruct H as [Hc Hw]. split; [|exact Hw].
  intros ->. discriminate.
Qed.

Lemma prefix_padded (p : string) : forall w,
  space_free w = true -> (prefix (p ++ " ") (w ++ " ") = true <-> p = w).
Proof.
  induction p as [|a p IH]; intros w Hw.
  - destruct w as [|c w]; cbn [append prefix].
    + destruct (ascii_dec " " " "); [tauto|congruence].
    + apply space_free_cons in Hw. destruct Hw as [Hc _].
      destruct (ascii_dec " " c) as [E|E]; [congruence|]. split; discriminate.
  - destruct w as [|c w]; cbn [append prefix].
    + destruct (ascii_dec a " "); [destruct p; cbn [append]|]; split; discriminate.
    + apply space_free_cons in Hw. destruct Hw as [_ Hw].
      destruct (ascii_dec a c) as [->|Hne].
      * rewrite (IH w Hw). split; [now intros ->|now intros [= ->]].
      * split; [discriminate|intros [= ? ?]; contradiction].
Qed.

Lemma replace_aux_skip_all (old new s : string) :
  PyStr.replace_aux old new (String.length s) s = EmptyString.
Proof. induction s as [|c s IH]; simpl; auto. Qed.

Lemma replace_aux_tail (old' new : string) (w : string) :
  space_free w = true ->
  PyStr.replace_aux (String " " (old' ++ " ")) new 0 (w ++ " ") = w ++ " ".
Proof.
  intros Hw. induction w as [|c w IH].
  - cbn [append PyStr.replace_aux prefix].
    destruct (ascii_dec " " " "); [|reflexivity].
    destruct old'; reflexivity.
  - apply space_free_cons in Hw. destruct Hw as [Hc Hw].
    cbn [append PyStr.replace_aux prefix].
    destruct (ascii_dec " " c) as [E|E]; [congruence|].
    now rewrite (IH Hw).
Qed.

Lemma append_empty_r (s : string) : s ++ EmptyString = s.
Proof. induction s; simpl; congruence. Qed.

(** C5, as the code has it: a rule of the synonym table whose source phrase
    carries a boundary space on both sides is an exact whole-word
    substitution over the space-padded input: applied to the padded form of
    a word without spaces it yields its replacement when the word is the
    phrase itself and leaves the padded word untouched otherwise, so it
    never rewrites a part of a longer word. (The rules with a boundary
    space on one side only, or on none, are not covered.) *)
Theorem padded_rules_match_whole_words (old new p w : string) :
  In (old, new) synonym_rules ->
  old = " " ++ p ++ " " ->
  space_free w = true ->
  apply_rule (" " ++ w ++ " ") (old, new) = if w =? p then new else " " ++ w ++ " ".
Proof.
  intros _ -> Hw. unfold apply_rule, PyStr.replace.
  cbn [fst snd append PyStr.replace_aux prefix].
  destruct (ascii_dec " " " ") as [_|E]; [|congruence].
  destruct (prefix (p ++ " ") (w ++ " ")) eqn:Hpre.
  - apply (prefix_padded p w Hw) in Hpre. subst p. rewrite String.eqb_refl.
    replace (String.length (String " " (w ++ " ")) - 1) with (String.length (w ++ " "))
      by (cbn [String.length]; lia).
    rewrite replace_aux_skip_all. apply append_empty_r.
  - destruct (String.eqb_spec w p) as [->|Hne].
    + assert (H : prefix (p ++ " ") (p ++ " ") = true) by now apply prefix_padded.
      congruence.
    + f_equal. now apply replace_aux_tail.
Qed.

Lemma padded_rules_match_whole_words_witness :
  apply_rule (" " ++ "readable" ++ " ") (" read ", "load") = " readable ".
Proof.
  apply (padded_rules_match_whole_words " read " "load" "read" "readable").
  - simpl. tauto.
  - reflexivity.
  - reflexivity.
Defined.

(** C5, the claim as stated fails: the rule [" write" -> "store"] of the
    table has no closing boundary space and fires on the padded word
    " writer ", where "write" is a part of the longer word "writer"; the
    unpadded rule ["object" -> "instanc"] fires inside "objects". *)
Lemma one_sided_rule_rewrites_inside_word :
  In (" write", "store") synonym_rules
  /\ apply_rule (" " ++ "writer" ++ " ") (" write", "store") = "storer "
  /\ replace_synonyms "writer" = "storer"
  /\ In ("object", "instanc") synonym_rules
  /\ replace_synonyms "objects" = "instancs".
Proof.
  repeat split; try (vm_compute; reflexivity); simpl; tauto.
Qed.


(** * Further properties of the code *)

(** ** Raw code preprocessing *)

Example process_line_strings :
  RawCode.process_line ("String s = " ++ String RawCode.quote "a" ++ String RawCode.quote " + "
                        ++ String RawCode.quote (String RawCode.quote " + ")
                        ++ String RawCode.quote "hello" ++ String RawCode.quote ";"
                        ++ String RawCode.newline EmptyString)
  = ["string"; "s"; "hello"].
Proof. vm_compute. reflexivity. Qed.

Example process_line_camel :
  RawCode.process_line "IOException e = new ArrayList<HashMap>();"
  = ["io exception"; "e"; "new"; "arraylist"; "hashmap"].
Proof. vm_compute. reflexivity. Qed.

Example process_line_brackets :
  RawCode.process_line "getHTTPResponseCode(int[] xs)"
  = ["get http response code"; "int["; "xs"].
Proof. vm_compute. reflexivity. Qed.

Example process_line_runs :
  RawCode.process_line "parseXMLFile aB ABc ABC aBCd"
  = ["parse xml file"; "a b"; "a bc"; "abc"; "a b cd"].
Proof. vm_compute. reflexivity. Qed.

Example process_line_quotes :
  RawCode.process_line ("a" ++ String RawCode.quote (String RawCode.quote (String RawCode.quote "b"))
                        ++ String RawCode.quote "c" ++ String RawCode.quote "d")
  = ["ac"; "d"].
Proof. vm_compute. reflexivity. Qed.

Example process_line_blank :
  RawCode.process_line ("   123 ;" ++ String RawCode.newline EmptyString) = [EmptyString].
Proof. vm_compute. reflexivity. Qed.

Module RawCodeFacts.
Import RawCode.

Lemma all_chars_app (p : ascii -> bool) (a b : string) :
  all_chars p (a ++ b) = all_chars p a && all_chars p b.
Proof. induction a as [|c a IH]; simpl; [reflexivity|]. now rewrite IH, andb_assoc. Qed.

Lemma all_chars_impl (p q : ascii -> bool) (s : string) :
  (forall c, p c = true -> q c = true) -> all_chars p s = true -> all_chars q s = true.
Proof.
  intros Hpq. induction s as [|c s IH]; simpl; [reflexivity|].
  intros H. apply andb_prop in H. destruct H as [Hc Hs].
  now rewrite (Hpq c Hc), IH.
Qed.

(** A substitution only keeps characters of its input or writes [repl]. *)
Lemma re_sub_all_chars (p : ascii -> bool) matcher repl (s : string) : forall skip,
  all_chars p repl = true -> all_chars p s = true ->
  all_chars p (re_sub matcher repl skip s) = true.
Proof.
  induction s as [|c s IH]; intros skip Hr Hs; simpl; [reflexivity|].
  simpl in Hs. apply andb_prop in Hs. destruct Hs as [Hc Hs].
  destruct skip as [|k]; [|now apply IH].
  destruct (matcher (String c s)).
  - rewrite all_chars_app, Hr. simpl. now apply IH.
  - simpl. rewrite Hc. simpl. now apply IH.
Qed.

(** After [pattern1] only characters of the class are left. *)
Lemma pattern1_all_kept (s : string) : forall skip,
  all_chars kept (re_sub match_pattern1 " " skip s) = true.
Proof.
  induction s as [|c s IH]; intros skip; simpl; [reflexivity|].
  destruct skip as [|k]; [|apply IH].
  unfold match_pattern1. simpl. destruct (kept c) eqn:Hk; simpl.
  - rewrite Hk. simpl. apply IH.
  - apply IH.
Qed.

Lemma lstrip_all_chars (p : ascii -> bool) (s : string) :
  all_chars p s = true -> all_chars p (PyStr.lstrip s) = true.
Proof.
  induction s as [|c s IH]; simpl; [reflexivity|].
  intros H. destruct (PyStr.is_space c); [|exact H].
  apply andb_prop in H. now apply IH.
Qed.

Lemma rstrip_all_chars (p : ascii -> bool) (s : string) :
  all_chars p s = true -> all_chars p (PyStr.rstrip s) = true.
Proof.
  induction s as [|c s IH]; simpl; [reflexivity|].
  intros H. apply andb_prop in H. destruct H as [Hc Hs]. specialize (IH Hs).
  destruct (PyStr.rstrip s) as [|d r].
  - destruct (PyStr.is_space c); simpl; [reflexivity|now rewrite Hc].
  - cbn [all_chars]. rewrite Hc. exact IH.
Qed.

Lemma split_all_chars (p : ascii -> bool) (sep : ascii) (s : string) :
  all_chars p s = true ->
  Forall (fun w => all_chars (fun c => p c && negb (Ascii.eqb c sep)) w = true)
         (PyStr.split sep s).
Proof.
  induction s as [|c s IH]; simpl; intros H.
  - repeat constructor.
  - apply andb_prop in H. destruct H as [Hc Hs]. specialize (IH Hs).
    destruct (Ascii.eqb c sep) eqn:E.
    + constructor; [reflexivity|exact IH].
    + destruct (PyStr.split sep s) as [|w ws].
      * repeat constructor. simpl. now rewrite Hc, E.
      * inversion IH; subst. constructor; [|assumption].
        simpl. rewrite Hc, E. simpl. assumption.
Qed.

Lemma camel_split_all_chars (word : string) : forall prev,
  all_chars kept word = true -> all_chars kept (camel_split prev word) = true.
Proof.
  induction word as [|c word IH]; intros prev H; simpl; [reflexivity|].
  simpl in H. apply andb_prop in H. destruct H as [Hc Hw].
  match goal with |- context [if ?b then _ else _] => destruct b end;
    simpl; rewrite Hc; simpl; now apply IH.
Qed.

Lemma lower_char_out (c : ascii) : kept c = true -> out_char (lower_char c) = true.
Proof.
  destruct c as [[] [] [] [] [] [] [] []]; vm_compute; intros; congruence.
Qed.

Lemma lower_all_chars (s : string) :
  all_chars kept s = true -> all_chars out_char (lower s) = true.
Proof.
  induction s as [|c s IH]; simpl; [reflexivity|].
  intros H. apply andb_prop in H. destruct H as [Hc Hs].
  now rewrite (lower_char_out c Hc), IH.
Qed.

Lemma process_word_out (word : string) :
  all_chars kept word = true -> all_chars out_char (process_word word) = true.
Proof.
  intros H. unfold process_word.
  destruct (set_mem word do_not_split || (slice_m8_m1 word =? "xception")).
  - now apply lower_all_chars.
  - now apply lower_all_chars, camel_split_all_chars.
Qed.

(** X1: Whatever the line holds, every word that [process_raw_code] stores for
    it is made of letters of [a-z], opening brackets and spaces only. *)
Theorem processed_words_alphabet (line : string) :
  Forall (fun word => all_chars out_char word = true) (process_line line).
Proof.
  unfold process_line. apply Forall_map.
  eapply Forall_impl; [|apply (split_all_chars kept " ")].
  - intros w Hw. apply process_word_out.
    eapply all_chars_impl; [|exact Hw].
    intros c Hc. now apply andb_prop in Hc.
  - apply re_sub_all_chars; [reflexivity|].
    unfold PyStr.strip. apply rstrip_all_chars, lstrip_all_chars, pattern1_all_kept.
Qed.

Lemma length_substring_le (s : string) : forall n m,
  String.length (substring n m s) <= m.
Proof.
  induction s as [|c s IH]; intros n m.
  - destruct n, m; simpl; lia.
  - destruct n as [|n]; [destruct m as [|m]|]; simpl.
    + lia.
    + specialize (IH 0 m). lia.
    + apply IH.
Qed.

(** X2: The test [word[-8:-1] == "xception"] of line 114 is never true: the
    slice has at most seven characters. So only the words of
    [do_not_split] escape the camel-case split. *)
Theorem exception_guard_never_applies (word : string) :
  (slice_m8_m1 word =? "xception") = false
  /\ (set_mem word do_not_split = false ->
      process_word word = lower (camel_split None word)).
Proof.
  assert (H : (slice_m8_m1 word =? "xception") = false).
  { apply String.eqb_neq. intros E.
    assert (Hl : String.length (slice_m8_m1 word) = 8) by now rewrite E.
    unfold slice_m8_m1 in Hl.
    pose proof (length_substring_le word (String.length word - 8)
                  (String.length word - 1 - (String.length word - 8))).
    lia. }
  split; [exact H|].
  intros Hmem. unfold process_word. now rewrite Hmem, H.
Qed.

Lemma exception_guard_never_applies_witness :
  process_word "IOException" = "io exception".
Proof.
  rewrite (proj2 (exception_guard_never_applies "IOException")).
  - vm_compute. reflexivity.
  - vm_compute. reflexivity.
Defined.

Lemma lstrip_spaces (s : string) :
  all_chars (fun c => Ascii.eqb c " ") s = true -> PyStr.lstrip s = EmptyString.
Proof.
  induction s as [|c s IH]; simpl; [reflexivity|].
  intros H. apply andb_prop in H. destruct H as [Hc Hs].
  apply Ascii.eqb_eq in Hc. subst c. simpl. now apply IH.
Qed.

Lemma pattern1_spaces (s : string) : forall skip,
  all_chars (fun c => negb (code_char c)) s = true ->
  all_chars (fun c => Ascii.eqb c " ") (re_sub match_pattern1 " " skip s) = true.
Proof.
  induction s as [|c s IH]; intros skip H; simpl; [reflexivity|].
  simpl in H. apply andb_prop in H. destruct H as [Hc Hs].
  destruct skip as [|k]; [|now apply IH].
  unfold match_pattern1. simpl. destruct (kept c) eqn:Hk; simpl.
  - assert (E : Ascii.eqb c " " = true).
    { unfold kept, code_char in *.
      destruct (Ascii.eqb c "["), (is_lower_az c), (is_upper_AZ c); simpl in *;
        try discriminate; assumption. }
    rewrite E. simpl. now apply IH.
  - now apply IH.
Qed.

(** X3: A line without any letter of [a-zA-Z] and without an opening bracket
    (an empty line, a line of digits and punctuation) is stored as the list
    that holds the empty word, not as the empty list. *)
Theorem line_without_letters (line : string) :
  all_chars (fun c => negb (code_char c)) line = true ->
  process_line line = [EmptyString].
Proof.
  intros H. unfold process_line.
  assert (H0 : all_chars (fun c => negb (code_char c))
                 (re_sub match_pattern0 EmptyString 0 line) = true)
    by (apply re_sub_all_chars; [reflexivity|exact H]).
  pose proof (pattern1_spaces _ 0 H0) as H1.
  unfold PyStr.strip. rewrite (lstrip_spaces _ H1). reflexivity.
Qed.

Lemma line_without_letters_witness :
  process_line ("  42 + 7;" ++ String newline EmptyString) = [EmptyString].
Proof.
  apply line_without_letters. vm_compute. reflexivity.
Defined.


(** *** Lines that are already clean *)

Lemma plain_char_facts (c : ascii) :
  plain_char c = true ->
  PyStr.is_space c = false /\ Ascii.eqb c " " = false /\ Ascii.eqb c quote = false
  /\ kept c = true /\ lower_char c = c /\ is_upper_AZ c = false.
Proof.
  destruct c as [[] [] [] [] [] [] [] []]; vm_compute; intros; repeat split; congruence.
Qed.

Lemma pattern0_no_quote (s : string) :
  all_chars (fun c => negb (Ascii.eqb c quote)) s = true ->
  re_sub match_pattern0 EmptyString 0 s = s.
Proof.
  induction s as [|c s IH]; cbn [all_chars re_sub]; [reflexivity|].
  intros H. apply andb_prop in H. destruct H as [Hc Hs].
  apply negb_true_iff in Hc.
  assert (E : match_pattern0 (String c s) = None).
  { unfold match_pattern0. destruct s; [reflexivity|]. now rewrite Hc. }
  rewrite E. now rewrite IH.
Qed.

Lemma pattern1_all_kept_id (s : string) :
  all_chars kept s = true -> re_sub match_pattern1 " " 0 s = s.
Proof.
  induction s as [|c s IH]; cbn [all_chars re_sub]; [reflexivity|].
  intros H. apply andb_prop in H. destruct H as [Hc Hs].
  assert (E : match_pattern1 (String c s) = None).
  { unfold match_pattern1. simpl. now rewrite Hc. }
  rewrite E. now rewrite IH.
Qed.

Lemma rstrip_plain (w : string) :
  all_chars plain_char w = true -> PyStr.rstrip w = w.
Proof.
  induction w as [|c w IH]; simpl; [reflexivity|].
  intros H. apply andb_prop in H. destruct H as [Hc Hw].
  rewrite (IH Hw). destruct (plain_char_facts c Hc) as (Hs & _).
  rewrite Hs. destruct w; reflexivity.
Qed.

Lemma rstrip_app_nonempty (a b : string) :
  PyStr.rstrip b = b -> b <> EmptyString -> PyStr.rstrip (a ++ b) = a ++ b.
Proof.
  intros Hb Hne. induction a as [|c a IH]; simpl; [exact Hb|].
  rewrite IH. destruct (a ++ b) eqn:E; [|reflexivity].
  destruct a; simpl in E; [contradiction|discriminate].
Qed.

Lemma pattern2_plain_app (w rest : string) :
  all_chars plain_char w = true ->
  re_sub match_pattern2 " " 0 (w ++ rest) = w ++ re_sub match_pattern2 " " 0 rest.
Proof.
  induction w as [|c w IH]; cbn [all_chars re_sub append]; [reflexivity|].
  intros H. apply andb_prop in H. destruct H as [Hc Hw].
  destruct (plain_char_facts c Hc) as (_ & Hsp & _).
  assert (E : match_pattern2 (String c (w ++ rest)) = None).
  { unfold match_pattern2. simpl. now rewrite Hsp. }
  rewrite E. now rewrite IH.
Qed.

Lemma split_plain (w : string) :
  all_chars plain_char w = true -> PyStr.split " " w = [w].
Proof.
  induction w as [|c w IH]; simpl; [reflexivity|].
  intros H. apply andb_prop in H. destruct H as [Hc Hw].
  destruct (plain_char_facts c Hc) as (_ & Hsp & _).
  rewrite Hsp, (IH Hw). reflexivity.
Qed.

Lemma split_plain_app (w rest : string) :
  all_chars plain_char w = true ->
  PyStr.split " " (w ++ String " " rest) = w :: PyStr.split " " rest.
Proof.
  induction w as [|c w IH]; simpl; [reflexivity|].
  intros H. apply andb_prop in H. destruct H as [Hc Hw].
  destruct (plain_char_facts c Hc) as (_ & Hsp & _).
  rewrite Hsp, (IH Hw). reflexivity.
Qed.

Lemma lower_plain (w : string) : all_chars plain_char w = true -> lower w = w.
Proof.
  induction w as [|c w IH]; simpl; [reflexivity|].
  intros H. apply andb_prop in H. destruct H as [Hc Hw].
  destruct (plain_char_facts c Hc) as (_ & _ & _ & _ & Hl & _).
  now rewrite Hl, IH.
Qed.

Lemma camel_split_plain (w : string) : forall prev,
  all_chars plain_char w = true -> camel_split prev w = w.
Proof.
  induction w as [|c w IH]; intros prev H; simpl; [reflexivity|].
  simpl in H. apply andb_prop in H. destruct H as [Hc Hw].
  destruct (plain_char_facts c Hc) as (_ & _ & _ & _ & _ & Hu).
  rewrite Hu. simpl. now rewrite IH.
Qed.

Lemma process_word_plain (w : string) :
  all_chars plain_char w = true -> process_word w = w.
Proof.
  intros H. unfold process_word.
  destruct (set_mem w do_not_split || (slice_m8_m1 w =? "xception")).
  - now apply lower_plain.
  - rewrite camel_split_plain by assumption. now apply lower_plain.
Qed.

Lemma concat_plain_shape (words : list string) :
  words <> [] ->
  Forall (fun w => w <> EmptyString /\ all_chars plain_char w = true) words ->
  let line := String.concat " " words in
  line <> EmptyString
  /\ all_chars (fun c => plain_char c || Ascii.eqb c " ") line = true
  /\ PyStr.lstrip line = line
  /\ PyStr.rstrip line = line
  /\ re_sub match_pattern2 " " 0 line = line
  /\ PyStr.split " " line = words.
Proof.
  induction words as [|w words IH]; [congruence|].
  intros _ Hall. inversion Hall as [|? ? [Hne Hw] Hrest]; subst.
  assert (Hfirst : PyStr.lstrip w = w).
  { destruct w as [|c w]; [congruence|]. simpl in *.
    apply andb_prop in Hw. destruct Hw as [Hc _].
    destruct (plain_char_facts c Hc) as (Hs & _). now rewrite Hs. }
  assert (Hwide : all_chars (fun c => plain_char c || Ascii.eqb c " ") w = true).
  { eapply all_chars_impl; [|exact Hw]. intros c Hc. now rewrite Hc. }
  destruct words as [|w2 words].
  - simpl. repeat split; auto.
    + now apply rstrip_plain.
    + rewrite <- (append_empty_r w) at 1. rewrite pattern2_plain_app by assumption.
      apply append_empty_r.
    + now apply split_plain.
  - pose proof (IH ltac:(discriminate) Hrest) as IH'. cbv zeta in IH'.
    destruct IH' as (Hne2 & Hc2 & Hl2 & Hr2 & Hp2 & Hs2).
    cbv zeta.
    change (String.concat " " (w :: w2 :: words))
      with (w ++ String " " (String.concat " " (w2 :: words))).
    set (rest := String.concat " " (w2 :: words)) in *.
    assert (Hhead : exists d rest', rest = String d rest' /\ Ascii.eqb d " " = false).
    { inversion Hrest as [|? ? [Hne2' Hw2] _]; subst.
      destruct w2 as [|d w2']; [congruence|].
      simpl in Hw2. apply andb_prop in Hw2. destruct Hw2 as [Hd _].
      destruct (plain_char_facts d Hd) as (_ & Hsp & _).
      subst rest. destruct words; simpl; eauto. }
    destruct Hhead as (d & rest' & Erest & Hd).
    repeat split.
    + destruct w; [congruence|discriminate].
    + rewrite all_chars_app, Hwide. simpl. exact Hc2.
    + destruct w as [|c w]; [congruence|]. simpl in *.
      apply andb_prop in Hw. destruct Hw as [Hc _].
      destruct (plain_char_facts c Hc) as (Hs & _). now rewrite Hs.
    + apply rstrip_app_nonempty; [|discriminate].
      simpl. rewrite Hr2. destruct rest; [congruence|reflexivity].
    + rewrite pattern2_plain_app by assumption. f_equal.
      rewrite Erest in *. cbn [append re_sub].
      assert (E : match_pattern2 (String " " (String d rest')) = None).
      { unfold match_pattern2. simpl. now rewrite Hd. }
      rewrite E. f_equal. exact Hp2.
    + simpl. rewrite split_plain_app by assumption. now rewrite Hs2.
Qed.

(** X4: Words of letters [a-z] and opening brackets, joined by single spaces,
    come back as they are: on a line that is already clean the four
    substitutions, the split and the per-word step change nothing. *)
Theorem clean_line_round_trip (words : list string) :
  words <> [] ->
  Forall (fun w => w <> EmptyString /\ all_chars plain_char w = true) words ->
  process_line (String.concat " " words) = words.
Proof.
  intros Hne Hall.
  destruct (concat_plain_shape words Hne Hall) as (_ & Hc & Hl & Hr & Hp & Hs).
  unfold process_line.
  rewrite pattern0_no_quote.
  - rewrite pattern1_all_kept_id.
    + unfold PyStr.strip. rewrite Hl, Hr, Hp, Hs.
      clear - Hall. induction Hall as [|w ws [_ Hw] _ IH]; simpl; [reflexivity|].
      now rewrite process_word_plain, IH.
    + eapply all_chars_impl; [|exact Hc]. intros c Hcc.
      apply orb_prop in Hcc. destruct Hcc as [Hcc|Hcc].
      * now destruct (plain_char_facts c Hcc) as (_ & _ & _ & Hk & _).
      * apply Ascii.eqb_eq in Hcc. now subst c.
  - eapply all_chars_impl; [|exact Hc]. intros c Hcc.
    apply orb_prop in Hcc. destruct Hcc as [Hcc|Hcc].
    + destruct (plain_char_facts c Hcc) as (_ & _ & Hq & _). now rewrite Hq.
    + apply Ascii.eqb_eq in Hcc. now subst c.
Qed.

Lemma clean_line_round_trip_witness :
  process_line "int[ xs get file" = ["int["; "xs"; "get"; "file"].
Proof.
  apply (clean_line_round_trip ["int["; "xs"; "get"; "file"]).
  - discriminate.
  - repeat constructor; try discriminate.
Defined.

End RawCodeFacts.

(** ** The index store *)

Lemma contains_app_r (x a s : string) :
  PyStr.contains x s = true -> PyStr.contains x (a ++ s) = true.
Proof.
  intros H. induction a as [|c a IH]; simpl; [exact H|].
  rewrite IH. apply orb_true_r.
Qed.

Lemma prefix_app_self (x b : string) : prefix x (x ++ b) = true.
Proof.
  induction x as [|c x IH]; simpl; [now destruct b|].
  destruct (ascii_dec c c); [exact IH|congruence].
Qed.

Lemma contains_middle (x a b : string) : PyStr.contains x (a ++ x ++ b) = true.
Proof.
  apply contains_app_r.
  pose proof (prefix_app_self x b) as H.
  destruct (x ++ b); cbn [PyStr.contains]; now rewrite H.
Qed.

(** X5: What [save_index] stores, [load_index] returns: for every index type
    other than "word_indices" a load right after a save yields the saved
    index and only prints a line. *)
Theorem save_then_load_round_trip (self : IndexCreator) (index : Index) (w : World) :
  index_type self <> "word_indices" ->
  let w1 := snd (save_index self index w) in
  fst (save_index self index w) = Ok tt
  /\ load_index self w1
     = (Ok (LoadedIndex index),
        mkWorld (files w1) (database w1)
          (stdout w1 ++ [("Loading index from: " ++ dataset_path self
                           ++ index_type self ++ ".pkl")%string])%list
          (stopwords w1)).
Proof.
  intros Hty. apply String.eqb_neq in Hty.
  unfold save_index, load_index. rewrite Hty. run_world.
  split; [reflexivity|].
  rewrite (dict_get_set_same _ string_eqb_eq). simpl.
  rewrite (dict_get_set_same _ string_eqb_eq). reflexivity.
Qed.

Lemma save_then_load_round_trip_witness :
  fst (load_index (demo_creator "inverted_index")
         (snd (save_index (demo_creator "inverted_index") [("get", [(0, 0%R)])] demo_world)))
  = Ok (LoadedIndex [("get", [(0, 0%R)])]).
Proof.
  rewrite (proj2 (save_then_load_round_trip (demo_creator "inverted_index")
                    [("get", [(0, 0%R)])] demo_world ltac:(discriminate))).
  reflexivity.
Defined.

(** X6: Loading an index that was never stored raises an [AssertionError] whose
    message holds both the file name and the directory, and leaves the world
    as it was. *)
Theorem load_index_missing_file (self : IndexCreator) (w : World) :
  index_type self <> "word_indices" ->
  dict_get String.eqb (files w) (dataset_path self ++ index_type self ++ ".pkl") = None ->
  exists msg,
    load_index self w = (Raise (AssertionError msg), w)
    /\ PyStr.contains (index_type self ++ ".pkl") msg = true
    /\ PyStr.contains (dataset_path self) msg = true.
Proof.
  intros Hty Hnone. apply String.eqb_neq in Hty.
  exists ("Index file " ++ (index_type self ++ ".pkl") ++ " not found at " ++ dataset_path self).
  split; [|split].
  - unfold load_index. rewrite Hty. run_world. rewrite Hnone. reflexivity.
  - apply contains_middle.
  - change ("Index file " ++ (index_type self ++ ".pkl") ++ " not found at "
            ++ dataset_path self)
      with ("Index file " ++ ((index_type self ++ ".pkl") ++ " not found at "
            ++ dataset_path self)).
    apply contains_app_r, contains_app_r.
    rewrite <- (append_empty_r (dataset_path self)) at 2.
    apply (contains_middle (dataset_path self) " not found at " EmptyString).
Qed.

Lemma load_index_missing_file_witness :
  exists msg,
    load_index (demo_creator "inverted_index") demo_world
    = (Raise (AssertionError msg), demo_world)
    /\ PyStr.contains "inverted_index.pkl" msg = true
    /\ PyStr.contains "data/github/" msg = true.
Proof.
  apply (load_index_missing_file (demo_creator "inverted_index") demo_world).
  - discriminate.
  - reflexivity.
Defined.

Lemma weight_pass_no_documents (index : RawIndex) :
  wf_index index -> index <> [] ->
  weight_pass 0 index = Raise (ValueError "math domain error").
Proof.
  intros Hwf Hne. destruct index as [|e index]; [congruence|].
  pose proof (wf_index_nonempty _ Hwf) as Hall. inversion Hall; subst.
  unfold weight_pass. cbn [mapM].
  now rewrite weight_counter_no_documents.
Qed.

Section StoreFacts.
Variable stem : string -> string.

(** X7: A finished build can be loaded back: after a successful inverted-index
    build [load_index] returns exactly the index that the build computed,
    and the database of the loader has received that index once. *)
Theorem build_then_load (self : IndexCreator) (w w1 : World) (m t a : Docs) (fin : Index) :
  load_data self w = (Ok (Ret3 m t a), w1) ->
  build stem (stopwords w) m t a = Ok fin ->
  exists w',
    create_index stem self w = (Ok tt, w')
    /\ fst (load_index self w') = Ok (LoadedIndex fin)
    /\ database w' = (database w ++ [("inverted_index", fin, dataset_path self)])%list
    /\ dict_get String.eqb (files w') (dataset_path self ++ "inverted_index.pkl")
       = Some (Pickle fin).
Proof.
  intros Hload Hbuild.
  destruct (load_data_Ret3 _ _ _ _ _ _ Hload) as (Hty & Hf & Hd & _).
  rewrite (create_index_inverted stem self w w1 m t a Hload). cbv zeta.
  rewrite Hbuild. unfold save_index, load_index. rewrite Hty.
  eexists. split; [reflexivity|]. run_world.
  rewrite !(dict_get_set_same _ string_eqb_eq). simpl.
  rewrite ?(dict_get_set_same _ string_eqb_eq). rewrite Hd.
  repeat split; reflexivity.
Qed.

(** X8: An index type that is neither "word_indices" nor "inverted_index" makes
    [create_index] raise a [TypeError] (it unpacks the [None] that
    [load_data] returns) when the three field files are there; nothing is
    printed or stored. *)
Theorem unknown_index_type_raises (self : IndexCreator) (w : World) rows_m rows_t rows_a :
  index_type self <> "word_indices" ->
  index_type self <> "inverted_index" ->
  dict_get String.eqb (files w) (dataset_path self ++ use_methname self) = Some (Hdf5 rows_m) ->
  dict_get String.eqb (files w) (dataset_path self ++ use_tokens self) = Some (Hdf5 rows_t) ->
  dict_get String.eqb (files w) (dataset_path self ++ use_apiseq self) = Some (Hdf5 rows_a) ->
  create_index stem self w
  = (Raise (TypeError "cannot unpack non-iterable NoneType object"), w).
Proof.
  intros H1 H2 Hm Ht Ha.
  apply String.eqb_neq in H1. apply String.eqb_neq in H2.
  assert (Hload : load_data self w = (Ok RetNone, w)).
  { unfold load_data. run_world.
    repeat (first [rewrite Hm | rewrite Ht | rewrite Ha]; simpl).
    rewrite H1, H2. reflexivity. }
  unfold create_index. rewrite H1. unfold bind at 1. rewrite Hload. reflexivity.
Qed.

(** X9: With no method names at all but a token or API field that yields some
    term, the build raises [ValueError] ("math domain error", the logarithm
    of 0 / df): by then the stopword set has been extended and a line
    printed, but no file is written and the database is not called. *)
Theorem no_method_names_raises (self : IndexCreator) (w w1 : World) (t a : Docs) :
  load_data self w = (Ok (Ret3 [] t a), w1) ->
  accumulate stem (stopwords w) [] t a <> [] ->
  exists w',
    create_index stem self w = (Raise (ValueError "math domain error"), w')
    /\ files w' = files w /\ database w' = database w
    /\ stopwords w' = set_add "new" (stopwords w).
Proof.
  intros Hload Hne.
  destruct (load_data_Ret3 _ _ _ _ _ _ Hload) as (_ & Hf & Hd & _).
  rewrite (create_index_inverted stem self w w1 [] t a Hload). cbv zeta.
  unfold build. cbn [length].
  rewrite weight_pass_no_documents; [|apply wf_accumulate|exact Hne].
  cbn [rbind]. eexists. split; [reflexivity|]. simpl. auto.
Qed.

End StoreFacts.

Lemma build_then_load_witness :
  exists w',
    create_index plain_stem (demo_creator "inverted_index") demo_world = (Ok tt, w')
    /\ fst (load_index (demo_creator "inverted_index") w')
       = Ok (LoadedIndex
               (map (fun e => (fst e, finished 2 (snd e)))
                  (accumulate plain_stem ["the"; "of"]
                     [["store"; "new"]; ["get_file"; "UNK"]]
                     [["new"; "store"; "store"]; ["a"; "UNK"]]
                     [["[]"; "String"; "[]"]; ["UNK"]]))).
Proof.
  destruct (build_then_load plain_stem (demo_creator "inverted_index") demo_world
              (mkWorld demo_files []
                 ["Translating methname, token and api sequence word indices back to natural language...   Please wait."]
                 ["the"; "of"])
              [["store"; "new"]; ["get_file"; "UNK"]]
              [["new"; "store"; "store"]; ["a"; "UNK"]]
              [["[]"; "String"; "[]"]; ["UNK"]]
              (map (fun e => (fst e, finished 2 (snd e)))
                 (accumulate plain_stem ["the"; "of"]
                    [["store"; "new"]; ["get_file"; "UNK"]]
                    [["new"; "store"; "store"]; ["a"; "UNK"]]
                    [["[]"; "String"; "[]"]; ["UNK"]]))
              eq_refl)
    as (w' & Hrun & Hload & _).
  - apply build_ok. simpl. lia.
  - exists w'. split; assumption.
Defined.

Lemma unknown_index_type_raises_witness :
  create_index plain_stem (demo_creator "tfidf") demo_world
  = (Raise (TypeError "cannot unpack non-iterable NoneType object"), demo_world).
Proof.
  apply (unknown_index_type_raises plain_stem (demo_creator "tfidf") demo_world
           [[2; 3]; [4; 99]]%Z [[2; 3; 3]; [4; 77]]%Z [[2; 3; 2]; [55]]%Z);
    first [discriminate | reflexivity].
Defined.

Lemma no_method_names_raises_witness :
  exists w',
    create_index plain_stem (demo_creator "inverted_index") demo_world_no_methnames
    = (Raise (ValueError "math domain error"), w')
    /\ files w' = files demo_world_no_methnames
    /\ database w' = []
    /\ stopwords w' = ["the"; "of"; "new"].
Proof.
  apply (no_method_names_raises plain_stem (demo_creator "inverted_index")
           demo_world_no_methnames
           (mkWorld (files demo_world_no_methnames) []
              ["Translating methname, token and api sequence word indices back to natural language...   Please wait."]
              ["the"; "of"])
           [["store"]] []).
  - reflexivity.
  - vm_compute. discriminate.
Defined.

(** ** More on accumulation *)

Lemma list_sum_dict_set {K V} (eqb : K -> K -> bool) (f : V -> nat)
    (d : list (K * V)) k v :
  list_sum (map (fun e => f (snd e)) (dict_set eqb d k v))
  + match dict_get eqb d k with Some v0 => f v0 | None => 0 end
  = list_sum (map (fun e => f (snd e)) d) + f v.
Proof.
  induction d as [|[k0 v0] d IH]; simpl; [lia|].
  destruct (eqb k0 k); simpl; lia.
Qed.

Lemma counter_total_incr (cnt : Counter) i :
  counter_total (counter_incr cnt i) = S (counter_total cnt).
Proof.
  unfold counter_total, counter_incr, counter_get.
  pose proof (list_sum_dict_set Nat.eqb (fun n => n) cnt i
                (match dict_get Nat.eqb cnt i with Some n => n | None => 0 end + 1)) as H.
  cbv beta in H.
  change (fun e : nat * nat => snd e) with (@snd nat nat) in H.
  destruct (dict_get Nat.eqb cnt i); lia.
Qed.

Lemma total_count_bump (index : RawIndex) word i :
  total_count (bump index word i) = S (total_count index).
Proof.
  unfold total_count, bump, index_get.
  destruct (dict_get String.eqb index word) as [cnt|] eqn:E.
  - pose proof (list_sum_dict_set String.eqb counter_total index word (counter_incr cnt i)) as H.
    rewrite E, counter_total_incr in H. lia.
  - pose proof (list_sum_dict_set String.eqb counter_total index word
                  (dict_set Nat.eqb [] i 1)) as H.
    rewrite E in H.
    change (counter_total (dict_set Nat.eqb [] i 1)) with 1 in H. lia.
Qed.

Lemma total_count_bump_all terms : forall (index : RawIndex) i,
  total_count (bump_all index terms i) = total_count index + length terms.
Proof.
  unfold bump_all. induction terms as [|t terms IH]; intros index i; simpl; [lia|].
  rewrite IH, total_count_bump. lia.
Qed.

Lemma keys_bump (index : RawIndex) word i :
  exists added, map fst (bump index word i) = (map fst index ++ added)%list.
Proof.
  unfold bump, index_get.
  destruct (dict_get String.eqb index word) as [cnt|] eqn:E;
    rewrite dict_set_keys, E.
  - exists []. now rewrite app_nil_r.
  - now exists [word].
Qed.

Lemma keys_bump_all terms : forall (index : RawIndex) i,
  exists added, map fst (bump_all index terms i) = (map fst index ++ added)%list.
Proof.
  unfold bump_all. induction terms as [|t terms IH]; intros index i; simpl.
  - exists []. now rewrite app_nil_r.
  - destruct (IH (bump index t i) i) as (a2 & E2).
    destruct (keys_bump index t i) as (a1 & E1).
    exists (a1 ++ a2)%list. now rewrite E2, E1, app_assoc.
Qed.

Section MoreAccumulation.
Variable stem : string -> string.

(** X11: One call of [add_to_index] counts every term that the lines yield
    exactly once: the sum of all counts of the index grows by the number of
    terms that pass the filter of the call. *)
Theorem every_occurrence_counted_once (index : RawIndex) (lines : Docs)
    (stopwords : option StrSet) :
  total_count (add_to_index stem index lines stopwords)
  = total_count index
    + list_sum (map (fun line => length (field_terms stem stopwords line)) lines).
Proof.
  rewrite add_to_index_bump_all. unfold enumerate. generalize 0 as n. revert index.
  induction lines as [|line lines IH]; intros index n; simpl; [lia|].
  rewrite IH, total_count_bump_all. simpl. lia.
Qed.

(** X12: Terms keep their place: a call of [add_to_index] leaves the terms that
    are already in the index where they are and puts new terms behind them;
    no count of the index goes down. *)
Theorem accumulation_only_appends (index : RawIndex) (lines : Docs)
    (stopwords : option StrSet) :
  (exists added,
      map fst (add_to_index stem index lines stopwords) = (map fst index ++ added)%list)
  /\ (forall word i,
        count_of index word i <= count_of (add_to_index stem index lines stopwords) word i).
Proof.
  split.
  - rewrite add_to_index_bump_all. unfold enumerate. generalize 0 as n. revert index.
    induction lines as [|line lines IH]; intros index n; simpl.
    + exists []. now rewrite app_nil_r.
    + destruct (IH (bump_all index (field_terms stem stopwords line) n) (S n)) as (a2 & E2).
      destruct (keys_bump_all (field_terms stem stopwords line) index n) as (a1 & E1).
      exists (a1 ++ a2)%list. now rewrite E2, E1, app_assoc.
  - intros word i. rewrite count_of_add_to_index. lia.
Qed.

(** X13: Two calls of [add_to_index] can be swapped without changing any count:
    the order of the field passes only shows in the order of the terms. *)
Theorem passes_commute_on_counts (index : RawIndex) (lines1 lines2 : Docs)
    (sw1 sw2 : option StrSet) (word : string) (i : nat) :
  count_of (add_to_index stem (add_to_index stem index lines1 sw1) lines2 sw2) word i
  = count_of (add_to_index stem (add_to_index stem index lines2 sw2) lines1 sw1) word i.
Proof. rewrite !count_of_add_to_index. lia. Qed.

(** X14: Starting from the empty index, a posting can only name a document of
    the field: its id is below the number of lines. *)
Theorem posting_ids_below_lines (lines : Docs) (stopwords : option StrSet)
    (word : string) (i : nat) :
  has_posting (add_to_index stem [] lines stopwords) word i = true ->
  i < length lines.
Proof.
  intros H.
  apply has_posting_count in H; [|apply wf_add_to_index, wf_nil].
  rewrite count_of_add_to_index in H.
  destruct (Nat.lt_ge_cases i (length lines)) as [Hlt|Hge]; [assumption|].
  rewrite (nth_overflow lines [] Hge), field_terms_nil in H.
  unfold count_of in H. simpl in H. lia.
Qed.
End MoreAccumulation.

Lemma posting_ids_below_lines_witness :
  1 < length [["store"; "new"]; ["get_file"; "UNK"]].
Proof.
  apply (posting_ids_below_lines plain_stem [["store"; "new"]; ["get_file"; "UNK"]]
           (Some ["the"; "of"]) "get" 1).
  vm_compute. reflexivity.
Defined.

(** ** More on weights and order *)

Lemma counter_get_map_values {V W} (f : V -> W) (cnt : list (nat * V)) i :
  counter_get (map (fun p => (fst p, f (snd p))) cnt) i = option_map f (counter_get cnt i).
Proof.
  unfold counter_get. induction cnt as [|[k v] cnt IH]; simpl; [reflexivity|].
  destruct (Nat.eqb k i); [reflexivity|exact IH].
Qed.

Lemma log10_le (x y : R) : (0 < x)%R -> (x <= y)%R -> (log10 x <= log10 y)%R.
Proof.
  intros Hx [Hlt| ->]; [|lra]. left. now apply log10_increasing.
Qed.

Lemma log10_count_pos (tf : nat) : 1 <= tf -> (0 < log10 (INR (1 + tf)))%R.
Proof.
  intros H. apply log10_pos. rewrite <- INR_1. apply lt_INR. lia.
Qed.

Lemma idf_negative (N df : nat) : 1 <= N -> N < df -> (idf N df < 0)%R.
Proof.
  intros HN Hdf. rewrite <- (idf_same N HN). apply idf_decreasing; lia.
Qed.

(** X15: Within the postings of one term a document with a higher raw count
    never gets a lower weight, and no weight is negative, as long as the
    term has at most N postings; with fewer than N postings a higher count
    gets a strictly higher weight. *)
Theorem higher_count_never_lower_weight (N : nat) (cnt : Counter) :
  1 <= length cnt -> length cnt <= N ->
  exists wcnt,
    weight_counter N cnt = Ok wcnt
    /\ forall i j tfi tfj,
         counter_get cnt i = Some tfi -> counter_get cnt j = Some tfj -> tfi <= tfj ->
         exists wi wj,
           counter_get wcnt i = Some wi /\ counter_get wcnt j = Some wj
           /\ (0 <= wi <= wj)%R
           /\ (length cnt < N -> tfi < tfj -> (wi < wj)%R).
Proof.
  intros H1 HN. exists (weighted N cnt). split.
  - apply weight_counter_ok; [lia|]. destruct cnt; [simpl in H1; lia|discriminate].
  - intros i j tfi tfj Hi Hj Hle. unfold weighted.
    rewrite !counter_get_map_values, Hi, Hj. simpl.
    eexists _, _. split; [reflexivity|]. split; [reflexivity|].
    unfold tf_idf.
    pose proof (idf_nonneg N (length cnt) H1 HN) as Hidf.
    assert (H0 : (0 <= log10 (INR (1 + tfi)))%R).
    { rewrite <- log10_1. apply log10_le; [lra|]. rewrite <- INR_1. apply le_INR. lia. }
    assert (Hmono : (log10 (INR (1 + tfi)) <= log10 (INR (1 + tfj)))%R).
    { apply log10_le; [apply lt_0_INR; lia|apply le_INR; lia]. }
    split; [split|].
    + now apply Rmult_le_pos.
    + now apply Rmult_le_compat_l.
    + intros Hdf Hlt. apply Rmult_lt_compat_l.
      * assert (E : (idf N (length cnt) = 0)%R -> False).
        { intros E. apply (idf_zero_iff N (length cnt) H1 HN) in E. lia. }
        destruct Hidf as [Hpos|Heq]; [exact Hpos|]. exfalso. apply E. now symmetry.
      * apply log10_increasing; [apply lt_0_INR; lia|apply lt_INR; lia].
Qed.

Lemma higher_count_never_lower_weight_witness :
  exists wcnt,
    weight_counter 10 [(0, 1); (1, 3)] = Ok wcnt
    /\ exists wi wj, counter_get wcnt 0 = Some wi /\ counter_get wcnt 1 = Some wj
                     /\ (wi < wj)%R.
Proof.
  destruct (higher_count_never_lower_weight 10 [(0, 1); (1, 3)]) as (wcnt & Hok & Hw).
  - simpl. lia.
  - simpl. lia.
  - exists wcnt. split; [exact Hok|].
    destruct (Hw 0 1 1 3 eq_refl eq_refl) as (wi & wj & Hi & Hj & _ & Hlt).
    + lia.
    + exists wi, wj. repeat split; try assumption. apply Hlt; simpl; lia.
Defined.

(** X16: When a term has more postings than there are method names (a token or
    API field longer than the method-name field), its idf is negative:
    every posting gets a weight below zero, and a higher raw count gets a
    lower weight. *)
Theorem more_postings_than_documents (N : nat) (cnt : Counter) :
  1 <= N -> N < length cnt ->
  exists wcnt,
    weight_counter N cnt = Ok wcnt
    /\ (forall i tf, counter_get cnt i = Some tf -> 1 <= tf ->
          exists wi, counter_get wcnt i = Some wi /\ (wi < 0)%R)
    /\ (forall i j tfi tfj,
          counter_get cnt i = Some tfi -> counter_get cnt j = Some tfj -> tfi < tfj ->
          exists wi wj, counter_get wcnt i = Some wi /\ counter_get wcnt j = Some wj
                        /\ (wj < wi)%R).
Proof.
  intros HN Hdf. exists (weighted N cnt).
  pose proof (idf_negative N (length cnt) HN Hdf) as Hidf.
  split; [|split].
  - apply weight_counter_ok; [lia|]. destruct cnt; [simpl in Hdf; lia|discriminate].
  - intros i tf Hi Htf. unfold weighted. rewrite counter_get_map_values, Hi. simpl.
    eexists. split; [reflexivity|]. unfold tf_idf.
    pose proof (log10_count_pos tf Htf). nra.
  - intros i j tfi tfj Hi Hj Hlt. unfold weighted.
    rewrite !counter_get_map_values, Hi, Hj. simpl.
    eexists _, _. split; [reflexivity|]. split; [reflexivity|]. unfold tf_idf.
    assert (Hmono : (log10 (INR (1 + tfi)) < log10 (INR (1 + tfj)))%R).
    { apply log10_increasing; [apply lt_0_INR; lia|apply lt_INR; lia]. }
    nra.
Qed.

Lemma more_postings_than_documents_witness :
  exists wcnt,
    weight_counter 1 [(0, 1); (1, 2)] = Ok wcnt
    /\ exists wi, counter_get wcnt 1 = Some wi /\ (wi < 0)%R.
Proof.
  destruct (more_postings_than_documents 1 [(0, 1); (1, 2)]) as (wcnt & Hok & Hneg & _).
  - lia.
  - simpl. lia.
  - exists wcnt. split; [exact Hok|]. apply (Hneg 1 2 eq_refl). lia.
Defined.

Lemma in_order_key_le (x y : nat * R) :
  in_order sort_key tuple_ltb x y <-> key_le (sort_key x) (sort_key y).
Proof.
  unfold in_order, tuple_ltb, key_le.
  destruct (Req_dec_T (fst (sort_key y)) (fst (sort_key x))) as [E|E].
  - rewrite Nat.ltb_ge. split; [intros H; right; split; [now symmetry|exact H]|].
    intros [H|[_ H]]; [lra|exact H].
  - destruct (Rlt_dec (fst (sort_key y)) (fst (sort_key x))) as [L|L].
    + split; [discriminate|]. intros [H|[H _]]; [lra|]. exfalso. apply E. now symmetry.
    + split; [intros _; left; lra|reflexivity].
Qed.

Lemma key_le_trans (a b c : R * nat) : key_le a b -> key_le b c -> key_le a c.
Proof.
  unfold key_le. intros [H1|[H1 H1']] [H2|[H2 H2']].
  - left. lra.
  - left. lra.
  - left. lra.
  - right. split; [congruence|lia].
Qed.

Lemma key_le_antisym (a b : R * nat) : key_le a b -> key_le b a -> a = b.
Proof.
  unfold key_le. destruct a as [a1 a2], b as [b1 b2]. simpl.
  intros [H1|[H1 H1']] [H2|[H2 H2']]; try lra.
  f_equal; [assumption|lia].
Qed.

Lemma sort_key_inj (x y : nat * R) : sort_key x = sort_key y -> x = y.
Proof.
  destruct x as [i v], y as [j u]. unfold sort_key. simpl.
  intros [= Hv Hi]. f_equal; [assumption|lra].
Qed.

Lemma in_order_antisym (x y : nat * R) :
  in_order sort_key tuple_ltb x y -> in_order sort_key tuple_ltb y x -> x = y.
Proof.
  rewrite !in_order_key_le. intros H1 H2. apply sort_key_inj. now apply key_le_antisym.
Qed.

Lemma in_order_refl (x : nat * R) : in_order sort_key tuple_ltb x x.
Proof. apply in_order_key_le. right. split; [reflexivity|lia]. Qed.

(** Two lists in key order that hold the same postings are the same list. *)
Lemma sorted_unique (l1 : WCounter) : forall l2,
  Sorted (in_order sort_key tuple_ltb) l1 -> Sorted (in_order sort_key tuple_ltb) l2 ->
  Permutation l1 l2 -> l1 = l2.
Proof.
  assert (Htrans : Relations_1.Transitive (in_order sort_key tuple_ltb)).
  { intros x y z. rewrite !in_order_key_le. apply key_le_trans. }
  induction l1 as [|x l1 IH]; intros l2 S1 S2 Hperm.
  - apply Permutation_nil in Hperm. now subst.
  - destruct l2 as [|y l2]; [apply Permutation_sym, Permutation_nil in Hperm; discriminate|].
    assert (Hxy : x = y).
    { apply Sorted_StronglySorted in S1; [|exact Htrans].
      apply Sorted_StronglySorted in S2; [|exact Htrans].
      inversion S1 as [|? ? _ F1]; subst. inversion S2 as [|? ? _ F2]; subst.
      rewrite Forall_forall in F1, F2.
      assert (Hx : In x (y :: l2)) by (eapply Permutation_in; [exact Hperm|now left]).
      assert (Hy : In y (x :: l1))
        by (eapply Permutation_in; [apply Permutation_sym, Hperm|now left]).
      destruct Hx as [Hx|Hx]; [now symmetry|].
      destruct Hy as [Hy|Hy]; [assumption|].
      apply in_order_antisym; auto. }
    subst y. f_equal. apply IH.
    + now inversion S1.
    + now inversion S2.
    + now apply Permutation_cons_inv in Hperm.
Qed.

(** X17: The stored postings of a term depend on which documents were counted
    and how often, not on the order in which the documents were first met:
    two raw counters with the same items give the same finished postings. *)
Theorem finished_postings_ignore_counting_order (N : nat) (cnt1 cnt2 : Counter) :
  NoDup (map fst cnt1) -> Permutation cnt1 cnt2 ->
  finished N cnt1 = finished N cnt2.
Proof.
  intros Hnd Hperm.
  assert (Hnd2 : NoDup (map fst cnt2))
    by (eapply Permutation_NoDup; [apply Permutation_map, Hperm|exact Hnd]).
  unfold finished.
  rewrite !sort_counter_sorted by (rewrite weighted_keys; assumption).
  apply sorted_unique; try (apply sorted_Sorted; exact tuple_ltb_asym).
  rewrite <- (sorted_perm sort_key tuple_ltb (weighted N cnt1)).
  rewrite <- (sorted_perm sort_key tuple_ltb (weighted N cnt2)).
  unfold weighted. rewrite (Permutation_length Hperm). now apply Permutation_map.
Qed.

Lemma finished_postings_ignore_counting_order_witness :
  finished 10 [(0, 1); (1, 3)] = finished 10 [(1, 3); (0, 1)].
Proof.
  apply finished_postings_ignore_counting_order.
  - repeat constructor; simpl; intuition discriminate.
  - apply perm_swap.
Defined.

(** X18: Sorting postings that are already in the stored order changes nothing. *)
Theorem sorting_twice_changes_nothing (cnt : WCounter) :
  NoDup (map fst cnt) -> sort_counter (sort_counter cnt) = sort_counter cnt.
Proof.
  intros Hnd.
  assert (Hnd' : NoDup (map fst (sort_counter cnt))).
  { eapply Permutation_NoDup; [apply Permutation_map, sort_counter_perm, Hnd|exact Hnd]. }
  rewrite (sort_counter_sorted (sort_counter cnt) Hnd').
  apply sorted_unique.
  - apply sorted_Sorted. exact tuple_ltb_asym.
  - rewrite sort_counter_sorted by assumption. apply sorted_Sorted. exact tuple_ltb_asym.
  - symmetry. apply sorted_perm.
Qed.

Lemma sorting_twice_changes_nothing_witness :
  sort_counter (sort_counter [(3, 0%R); (1, 0%R)]) = sort_counter [(3, 0%R); (1, 0%R)].
Proof.
  apply sorting_twice_changes_nothing.
  repeat constructor; simpl; intuition discriminate.
Defined.

Lemma has_posting_map_values {V W} (f : list (nat * V) -> list (nat * W))
    (index : list (string * list (nat * V))) word i :
  has_posting (map (fun e => (fst e, f (snd e))) index) word i
  = match index_get index word with
    | Some cnt => match counter_get (f cnt) i with Some _ => true | None => false end
    | None => false
    end.
Proof.
  unfold has_posting, index_get.
  induction index as [|[k v] index IH]; simpl; [reflexivity|].
  destruct (k =? word); [reflexivity|exact IH].
Qed.

Section FinishedFacts.
Variable stem : string -> string.

(** X19: Weighting and sorting neither add nor drop anything: the finished index
    has the terms of the raw index in the same order, and a term has a
    posting for a document in the one exactly when it has one in the other. *)
Theorem finished_index_same_terms_and_postings (sw : StrSet) (m t a : Docs) (fin : Index) :
  build stem sw m t a = Ok fin ->
  map fst fin = map fst (accumulate stem sw m t a)
  /\ forall word i,
       has_posting fin word i = has_posting (accumulate stem sw m t a) word i.
Proof.
  intros Hfin. rewrite (build_Ok_inv stem sw m t a fin Hfin). split.
  - rewrite map_map. reflexivity.
  - intros word i.
    pose proof (wf_accumulate stem sw m t a) as Hwf.
    pose (o := @index_get (list (nat * nat)) (accumulate stem sw m t a) word).
    change (has_posting (accumulate stem sw m t a) word i)
      with (match o with
            | Some cnt => match counter_get cnt i with Some _ => true | None => false end
            | None => false
            end).
    transitivity (match o with
                  | Some cnt => match counter_get (finished (length m) cnt) i with
                                | Some _ => true | None => false end
                  | None => false
                  end);
      [exact (has_posting_map_values (finished (length m))
                (accumulate stem sw m t a) word i)|].
    destruct o as [cnt|] eqn:E; [|reflexivity].
    assert (Hc : wf_counter cnt) by (eapply wf_index_get; [exact Hwf|exact E]).
    destruct (counter_get cnt i) as [tf|] eqn:Ei.
    + now rewrite (finished_get _ _ _ _ Hc Ei).
    + replace (counter_get (finished (length m) cnt) i) with (@None R); [reflexivity|].
      symmetry. apply (dict_get_None _ nat_eqb_eq).
      apply (dict_get_None _ nat_eqb_eq) in Ei. intros Hin. apply Ei.
      rewrite <- (weighted_keys (length m) cnt).
      eapply Permutation_in; [|exact Hin].
      apply Permutation_map, Permutation_sym, finished_perm, Hc.
Qed.
End FinishedFacts.

Lemma finished_index_same_terms_and_postings_witness :
  map fst (map (fun e => (fst e, finished (length three_methnames) (snd e)))
             (accumulate plain_stem ["the"] three_methnames three_tokens three_apiseqs))
  = map fst (accumulate plain_stem ["the"] three_methnames three_tokens three_apiseqs).
Proof.
  refine (proj1 (finished_index_same_terms_and_postings plain_stem ["the"]
                   three_methnames three_tokens three_apiseqs _
                   (build_ok plain_stem ["the"] three_methnames three_tokens
                      three_apiseqs _))).
  simpl. lia.
Defined.

(** ** More on the synonym table *)

(** X20: Every replacement of the table is a fixed point of [replace_synonyms]:
    a word that is already a canonical form is left as it is. *)
Theorem canonical_forms_are_fixed (old new : string) :
  In (old, new) synonym_rules -> replace_synonyms new = new.
Proof.
  intros Hin.
  assert (H : forallb (fun r => replace_synonyms (snd r) =? snd r) synonym_rules = true)
    by (vm_compute; reflexivity).
  rewrite forallb_forall in H. apply String.eqb_eq. exact (H _ Hin).
Qed.

Lemma canonical_forms_are_fixed_witness : replace_synonyms "creat" = "creat".
Proof.
  apply (canonical_forms_are_fixed " init " "creat"). simpl. tauto.
Defined.

Lemma replace_absent (old new s : string) :
  PyStr.contains old s = false -> PyStr.replace s old new = s.
Proof.
  intros H. unfold PyStr.replace. destruct old as [|o old].
  - destruct s; discriminate.
  - induction s as [|c s IH]; [reflexivity|].
    cbn [PyStr.contains] in H. apply orb_false_iff in H. destruct H as [Hp Hc].
    cbn [PyStr.replace_aux]. rewrite Hp. now rewrite IH.
Qed.

Lemma rstrip_app_space (x : string) : PyStr.rstrip (x ++ " ") = PyStr.rstrip x.
Proof.
  induction x as [|c x IH]; [reflexivity|].
  cbn [append PyStr.rstrip]. now rewrite IH.
Qed.

Lemma strip_padded (word : string) : PyStr.strip (" " ++ word ++ " ") = PyStr.strip word.
Proof.
  unfold PyStr.strip. change (PyStr.lstrip (" " ++ word ++ " ")) with (PyStr.lstrip (word ++ " ")).
  induction word as [|c word IH]; [reflexivity|].
  cbn [append PyStr.lstrip]. destruct (PyStr.is_space c); [exact IH|].
  apply (rstrip_app_space (String c word)).
Qed.

(** X21: A word whose padded form holds none of the source phrases of the table
    passes through unchanged, apart from the trimming of white space at its
    ends. *)
Theorem word_without_phrase_passes (word : string) :
  forallb (fun r => negb (PyStr.contains (fst r) (" " ++ word ++ " "))) synonym_rules = true ->
  replace_synonyms word = PyStr.strip word.
Proof.
  intros H. unfold replace_synonyms. cbv zeta.
  rewrite <- (strip_padded word). f_equal.
  rewrite forallb_forall in H.
  generalize dependent synonym_rules. intros rules.
  induction rules as [|r rules IH]; intros H; [reflexivity|].
  cbn [fold_left]. unfold apply_rule at 2.
  rewrite replace_absent.
  - apply IH. intros x Hx. apply H. now right.
  - apply negb_true_iff. apply H. now left.
Qed.

Lemma word_without_phrase_passes_witness : replace_synonyms "readable" = PyStr.strip "readable".
Proof.
  apply word_without_phrase_passes. vm_compute. reflexivity.
Defined.

Lemma rstrip_idempotent (x : string) : PyStr.rstrip (PyStr.rstrip x) = PyStr.rstrip x.
Proof.
  induction x as [|c x IH]; [reflexivity|].
  cbn [PyStr.rstrip]. destruct (PyStr.rstrip x) as [|d r] eqn:E.
  - destruct (PyStr.is_space c) eqn:Hc; [reflexivity|].
    cbn [PyStr.rstrip]. now rewrite Hc.
  - cbn [PyStr.rstrip]. cbn [PyStr.rstrip] in IH. now rewrite IH.
Qed.

Lemma lstrip_head (s : string) :
  match PyStr.lstrip s with
  | EmptyString => True
  | String c _ => PyStr.is_space c = false
  end.
Proof.
  induction s as [|c s IH]; simpl; [exact I|].
  destruct (PyStr.is_space c) eqn:E; [exact IH|exact E].
Qed.

Lemma rstrip_keeps_head (c : ascii) (x : string) :
  PyStr.is_space c = false -> exists r, PyStr.rstrip (String c x) = String c r.
Proof.
  intros Hc. cbn [PyStr.rstrip]. destruct (PyStr.rstrip x); rewrite ?Hc; eauto.
Qed.

Lemma strip_idempotent (s : string) : PyStr.strip (PyStr.strip s) = PyStr.strip s.
Proof.
  unfold PyStr.strip. pose proof (lstrip_head s) as Hh.
  destruct (PyStr.lstrip s) as [|c x]; [reflexivity|].
  destruct (rstrip_keeps_head c x Hh) as (r & Er). rewrite Er.
  cbn [PyStr.lstrip]. rewrite Hh. rewrite <- Er. apply rstrip_idempotent.
Qed.

(** X22: No word comes out of [replace_synonyms] with white space at either end,
    so every term that a stopword-enabled pass puts into the index is
    trimmed. *)
Theorem index_terms_are_trimmed (stem : string -> string) (s : string) (sw : StrSet)
    (line : list string) (term : string) :
  In term (field_terms stem (Some (s :: sw)) line) -> PyStr.strip term = term.
Proof.
  cbn [field_terms]. intros Hin.
  apply in_flat_map in Hin. destruct Hin as (raw & _ & Hin).
  apply in_flat_map in Hin. destruct Hin as (piece & _ & Hin).
  unfold piece_terms in Hin.
  destruct ((String.length piece <? 2)%nat || (18 <? String.length piece)%nat
            || set_mem piece (s :: sw)); [contradiction|].
  destruct Hin as [<-|[]]. unfold replace_synonyms. apply strip_idempotent.
Qed.

Lemma index_terms_are_trimmed_witness : PyStr.strip "float" = "float".
Proof.
  apply (index_terms_are_trimmed plain_stem "the" [] ["get_real"] "float").
  vm_compute. tauto.
Defined.

(** ** Decoding the vocabulary *)

Lemma dict_of_items_keeps (items : list (Z * string)) (i : Z) (word : string) :
  forall d, dict_get Z.eqb d i = Some word -> ~ In i (map fst items) ->
  dict_get Z.eqb (fold_left (fun d kv => dict_set Z.eqb d (fst kv) (snd kv)) items d) i
  = Some word.
Proof.
  induction items as [|[k v] items IH]; intros d Hd Hout; simpl; [exact Hd|].
  apply IH.
  - simpl. rewrite (dict_get_set_other _ Z.eqb_eq); [exact Hd|].
    intros ->. apply Hout. now left.
  - intros Hin. apply Hout. now right.
Qed.

(** When a vocabulary lists an id more than once, the last word wins. *)
Lemma invert_vocab_last (v1 v2 : list (string * Z)) (word : string) (i : Z) :
  ~ In i (map snd v2) ->
  dict_get Z.eqb (invert_vocab (v1 ++ (word, i) :: v2)) i = Some word.
Proof.
  intros Hout. unfold invert_vocab, dict_of_items.
  rewrite map_app, fold_left_app. cbn [map fold_left fst snd].
  apply dict_of_items_keeps.
  - apply (dict_get_set_same _ Z.eqb_eq).
  - now rewrite map_map.
Qed.

(** X23: Decoding inverts encoding: with a vocabulary that gives every word its
    own id, a line of ids that encodes a line of words is translated back to
    exactly those words. *)
Theorem translate_decodes (vocab : list (string * Z)) (words : list string) (ids : list Z) :
  NoDup (map snd vocab) ->
  Forall2 (fun word i => In (word, i) vocab) words ids ->
  translate (invert_vocab vocab) ids = words.
Proof.
  intros Hnd Hall. induction Hall as [|word i words ids Hin _ IH]; [reflexivity|].
  cbn [translate map]. fold (translate (invert_vocab vocab) ids). rewrite IH. f_equal.
  apply in_split in Hin. destruct Hin as (v1 & v2 & ->).
  rewrite invert_vocab_last; [reflexivity|].
  rewrite map_app in Hnd. cbn [map snd] in Hnd.
  apply NoDup_remove_2 in Hnd. intros Hin. apply Hnd, in_or_app. now right.
Qed.

Lemma translate_decodes_witness :
  translate (invert_vocab [("UNK", 1%Z); ("store", 2%Z); ("new", 3%Z)]) [3; 2; 2]%Z
  = ["new"; "store"; "store"].
Proof.
  apply translate_decodes.
  - repeat constructor; simpl; intuition discriminate.
  - repeat constructor; simpl; tauto.
Defined.

(** ** Building twice with the same stopword set *)

Lemma load_data_Ret3_files (self : IndexCreator) (w w1 : World) m t a :
  load_data self w = (Ok (Ret3 m t a), w1) ->
  exists rows_m rows_t rows_a,
    dict_get String.eqb (files w) (dataset_path self ++ use_methname self) = Some (Hdf5 rows_m)
    /\ dict_get String.eqb (files w) (dataset_path self ++ use_tokens self) = Some (Hdf5 rows_t)
    /\ dict_get String.eqb (files w) (dataset_path self ++ use_apiseq self) = Some (Hdf5 rows_a)
    /\ m = map (translate (invert_vocab (methname_vocab self))) rows_m
    /\ t = map (translate (invert_vocab (token_vocab self))) rows_t
    /\ a = map (translate (invert_vocab (apiseq_vocab self))) rows_a.
Proof.
  unfold load_data. run_world.
  destruct (dict_get String.eqb (files w) (dataset_path self ++ use_methname self))
    as [fm|] eqn:Em; simpl; [|discriminate].
  destruct (dict_get String.eqb (files w) (dataset_path self ++ use_tokens self))
    as [ft|] eqn:Et; simpl; [|discriminate].
  destruct (dict_get String.eqb (files w) (dataset_path self ++ use_apiseq self))
    as [fa|] eqn:Ea; simpl; [|discriminate].
  rewrite Em. destruct fm as [rows_m|]; simpl; [|discriminate].
  rewrite Et. destruct ft as [rows_t|]; simpl; [|discriminate].
  rewrite Ea. destruct fa as [rows_a|]; simpl; [|discriminate].
  destruct (index_type self =? "word_indices"); [discriminate|].
  destruct (index_type self =? "inverted_index"); [|discriminate].
  intros [= <- <- <- _]. exists rows_m, rows_t, rows_a. repeat split; reflexivity.
Qed.

Lemma set_add_idempotent (word : string) (s : StrSet) :
  set_add word (set_add word s) = set_add word s.
Proof.
  unfold set_add. destruct (set_mem word s) eqn:E; cbv iota.
  - now rewrite E.
  - replace (set_mem word (s ++ [word])%list) with true; [reflexivity|].
    symmetry. apply set_mem_In, in_or_app. right. now left.
Qed.

Lemma set_add_mem (word : string) (s : StrSet) : set_mem word (set_add word s) = true.
Proof.
  unfold set_add. destruct (set_mem word s) eqn:E; [exact E|].
  apply set_mem_In, in_or_app. right. now left.
Qed.

Section Rebuild.
Variable stem : string -> string.

(** X24: [create_index] leaves "new" in the caller's stopword set. A second
    build with the same set object therefore reads the same fields but runs
    all passes with "new" as a stopword: the method-name word "new", which
    the first build counts, yields no term in the second. *)
Theorem rebuild_uses_extended_stopwords (self : IndexCreator) (w w1 : World)
    (m t a : Docs) (fin : Index) :
  load_data self w = (Ok (Ret3 m t a), w1) ->
  build stem (stopwords w) m t a = Ok fin ->
  dataset_path self ++ "inverted_index.pkl" <> dataset_path self ++ use_methname self ->
  dataset_path self ++ "inverted_index.pkl" <> dataset_path self ++ use_tokens self ->
  dataset_path self ++ "inverted_index.pkl" <> dataset_path self ++ use_apiseq self ->
  exists w' w1',
    create_index stem self w = (Ok tt, w')
    /\ stopwords w' = set_add "new" (stopwords w)
    /\ load_data self w' = (Ok (Ret3 m t a), w1')
    /\ create_index stem self w'
       = (let w2 := mkWorld (files w1') (database w1')
                      (stdout w1' ++ ["Adding lines to the index...   Please wait."])%list
                      (set_add "new" (stopwords w)) in
          match build stem (set_add "new" (stopwords w)) m t a with
          | Ok index => save_index self index w2
          | Raise e => (Raise e, w2)
          end)
    /\ piece_terms stem (set_add "new" (stopwords w)) "new" = [].
Proof.
  intros Hload Hbuild Hpm Hpt Hpa.
  destruct (load_data_Ret3 _ _ _ _ _ _ Hload) as (Hty & Hf & Hd & Hs).
  destruct (load_data_Ret3_files _ _ _ _ _ _ Hload)
    as (rows_m & rows_t & rows_a & Hm & Ht & Ha & -> & -> & ->).
  pose proof (create_index_inverted stem self w w1 _ _ _ Hload) as Hrun.
  cbv zeta in Hrun. rewrite Hbuild in Hrun.
  unfold save_index in Hrun. rewrite Hty in Hrun. run_world.
  eexists. eexists. split; [exact Hrun|].
  split; [reflexivity|].
  match type of Hrun with _ = (_, ?W) => set (w' := W) in * end.
  assert (Hload' : load_data self w'
                   = (Ok (Ret3 (map (translate (invert_vocab (methname_vocab self))) rows_m)
                               (map (translate (invert_vocab (token_vocab self))) rows_t)
                               (map (translate (invert_vocab (apiseq_vocab self))) rows_a)),
                      mkWorld (files w') (database w')
                        (stdout w' ++ ["Translating methname, token and api sequence word indices back to natural language...   Please wait."])%list
                        (stopwords w'))).
  { apply load_data_inverted; [exact Hty| | |]; subst w'; cbn [files];
      rewrite (dict_get_set_other _ string_eqb_eq) by assumption; rewrite Hf; assumption. }
  split; [exact Hload'|]. split.
  - rewrite (create_index_inverted stem self w' _ _ _ _ Hload'). subst w'. cbn [stopwords].
    rewrite set_add_idempotent. reflexivity.
  - unfold piece_terms. rewrite set_add_mem. now rewrite orb_true_r.
Qed.
End Rebuild.

Lemma rebuild_uses_extended_stopwords_witness :
  exists w' w1',
    create_index plain_stem (demo_creator "inverted_index") demo_world = (Ok tt, w')
    /\ stopwords w' = ["the"; "of"; "new"]
    /\ load_data (demo_creator "inverted_index") w'
       = (Ok (Ret3 [["store"; "new"]; ["get_file"; "UNK"]]
                   [["new"; "store"; "store"]; ["a"; "UNK"]]
                   [["[]"; "String"; "[]"]; ["UNK"]]), w1').
Proof.
  destruct (rebuild_uses_extended_stopwords plain_stem (demo_creator "inverted_index")
              demo_world
              (mkWorld demo_files []
                 ["Translating methname, token and api sequence word indices back to natural language...   Please wait."]
                 ["the"; "of"])
              [["store"; "new"]; ["get_file"; "UNK"]]
              [["new"; "store"; "store"]; ["a"; "UNK"]]
              [["[]"; "String"; "[]"]; ["UNK"]]
              (map (fun e => (fst e, finished 2 (snd e)))
                 (accumulate plain_stem ["the"; "of"]
                    [["store"; "new"]; ["get_file"; "UNK"]]
                    [["new"; "store"; "store"]; ["a"; "UNK"]]
                    [["[]"; "String"; "[]"]; ["UNK"]]))
              eq_refl)
    as (w' & w1' & Hrun & Hsw & Hload & _).
  - apply build_ok. simpl. lia.
  - discriminate.
  - discriminate.
  - discriminate.
  - exists w', w1'. repeat split; assumption.
Defined.
